(** * wandb_carbs: a shallow embedding of the reconciler and run lifecycle

    The development follows [src/wandb_carbs.py]: the [WandbCarbs] class
    (construction, [_load_runs], [_update_carbs_from_run],
    [_suggestion_from_run], [record_observation], [record_failure],
    [suggest]), its [Pow2WandbCarbs] subclass (the power-of-two codec) and
    the sweep configuration translator [_wandb_sweep_cfg_from_carbs_params].

    Python dictionaries are [gmap string Value]; the wandb run's summary
    and config are the mutable world threaded by a small state-and-error
    monad; Python exceptions are the [Exc] constructors. *)

From Stdlib Require Import ZArith QArith Qround Qpower Lia.
From stdpp Require Import base gmap strings list fin_maps.

Open Scope Z_scope.

(* ------------------------------------------------------------------ *)
(** ** Python values and dictionaries *)

(** The values stored in configs, summaries and suggestions.  A Python
    float (a double) is represented by its exact rational value
    [VFloat q]. *)
Inductive Value :=
  | VNone
  | VBool (b : bool)
  | VInt (z : Z)
  | VFloat (q : Q)
  | VStr (s : string).

(** A Python [dict] with string keys. *)
Abbreviation dict := (gmap string Value).

(** The exceptions the code can raise. *)
Inductive Exc :=
  | AssertionError
  | KeyError (k : string)
  | ValueError
  | TypeError
  | AttributeError
  | OverflowError.

Inductive result (A : Type) :=
  | Ok (a : A)
  | Err (e : Exc).
Arguments Ok {A} a.
Arguments Err {A} e.

Definition rbind {A B} (r : result A) (f : A -> result B) : result B :=
  match r with Ok a => f a | Err e => Err e end.

Notation "'let?' x := r 'in' k" := (rbind r (fun x => k))
  (at level 200, x name, r at level 100, k at level 200).

(** [d[k]]: a missing key raises [KeyError]. *)
Definition getitem (d : dict) (k : string) : result Value :=
  match d !! k with Some v => Ok v | None => Err (KeyError k) end.

(** [d.get(k, default)]. *)
Definition get (d : dict) (k : string) (default : Value) : Value :=
  match d !! k with Some v => v | None => default end.

(** [v == "s"] for a string literal [s]. *)
Definition py_eq_str (v : Value) (s : string) : bool :=
  match v with VStr s' => String.eqb s' s | _ => false end.

(** [x is None] *)
Definition is_none (o : option Value) : bool :=
  match o with None | Some VNone => true | Some _ => false end.

(* ------------------------------------------------------------------ *)
(** ** Floats and the platform's [pow] and [log2]

    A Python float is a double, represented here by its exact rational
    value.  The encoding [2 ** x] and the decoding [int(math.log2(x))]
    go through the C library's [pow] and [log2], whose results are
    rounded.  They are a [Libm] record: the two routines together with
    what any libm with an error below one unit in the last place
    guarantees, namely exact results where the exact value is a double
    (a power of two in range), underflow of [2 ** n] to [0.0] for
    [n <= -1075], overflow for [n >= 1024], and a [log2] that stays
    between the exponents bracketing its argument. *)

Definition pow2_Q (k : Z) : Q :=
  if 0 <=? k then inject_Z (2 ^ k) else 1 # Z.to_pos (2 ^ (- k)).

Lemma pow2_Q_Qpower (k : Z) : pow2_Q k == (inject_Z 2 ^ k)%Q.
Proof.
  unfold pow2_Q. destruct (0 <=? k) eqn:Hk.
  - apply Z.leb_le in Hk. apply Zpower_Qpower. exact Hk.
  - apply Z.leb_gt in Hk.
    replace k with (- (- k)) at 2 by lia. rewrite Qpower_opp.
    rewrite <- Zpower_Qpower by lia.
    assert (Hp : 0 < 2 ^ (- k)) by (apply Z.pow_pos_nonneg; lia).
    unfold Qinv, inject_Z. simpl.
    destruct (2 ^ (- k)) eqn:E; try lia. reflexivity.
Qed.

Lemma pow2_Q_pos (k : Z) : (0 < pow2_Q k)%Q.
Proof. rewrite pow2_Q_Qpower. apply Qpower_0_lt. reflexivity. Qed.

Lemma pow2_Q_le (j k : Z) : j <= k -> (pow2_Q j <= pow2_Q k)%Q.
Proof.
  intros H. rewrite !pow2_Q_Qpower. apply Qpower_le_compat_l; [exact H | discriminate].
Qed.

Lemma pow2_Q_lt (j k : Z) : j < k -> (pow2_Q j < pow2_Q k)%Q.
Proof.
  intros H. rewrite !pow2_Q_Qpower. apply Qpower_lt_compat_l; [exact H | reflexivity].
Qed.

(** Comparing a rational with [2^k] in integers, after scaling by [2^M]. *)
Lemma pow2_Q_scale (k M a : Z) (b : positive) : 0 <= M -> 0 <= k + M ->
  ((pow2_Q k <= a # b)%Q <-> 2 ^ (k + M) * Zpos b <= a * 2 ^ M) /\
  ((a # b < pow2_Q k)%Q <-> a * 2 ^ M < 2 ^ (k + M) * Zpos b).
Proof.
  intros HM HkM. unfold pow2_Q, Qle, Qlt. destruct (0 <=? k) eqn:Hk; cbn [Qnum Qden inject_Z].
  - apply Z.leb_le in Hk. rewrite Z.pow_add_r by lia.
    assert (0 < 2 ^ M) by (apply Z.pow_pos_nonneg; lia).
    assert (0 < 2 ^ k) by (apply Z.pow_pos_nonneg; lia).
    rewrite Z.mul_1_r.
    replace (2 ^ k * 2 ^ M * Zpos b) with ((2 ^ k * Zpos b) * 2 ^ M) by ring.
    rewrite <- Z.mul_le_mono_pos_r, <- Z.mul_lt_mono_pos_r by lia. cbn [Qnum inject_Z]. tauto.
  - apply Z.leb_gt in Hk.
    assert (Hp : 0 < 2 ^ (- k)) by (apply Z.pow_pos_nonneg; lia).
    rewrite Z2Pos.id by exact Hp.
    assert (HM' : 2 ^ M = 2 ^ (k + M) * 2 ^ (- k))
      by (rewrite <- Z.pow_add_r by lia; f_equal; lia).
    assert (0 < 2 ^ (k + M)) by (apply Z.pow_pos_nonneg; lia).
    rewrite HM', Z.mul_1_l.
    replace (a * (2 ^ (k + M) * 2 ^ (- k))) with ((a * 2 ^ (- k)) * 2 ^ (k + M)) by ring.
    replace (2 ^ (k + M) * Zpos b) with (Zpos b * 2 ^ (k + M)) by ring.
    rewrite <- Z.mul_le_mono_pos_r, <- Z.mul_lt_mono_pos_r by lia. lia.
Qed.

(** [floor(log2 x)] for a positive rational [x = a/b]. *)
Definition flog2 (x : Q) : Z :=
  let M := Z.log2 (Zpos (Qden x)) + 1 in
  Z.log2 (Qnum x * 2 ^ M / Zpos (Qden x)) - M.

Lemma flog2_spec (x : Q) : (0 < x)%Q ->
  (pow2_Q (flog2 x) <= x)%Q /\ (x < pow2_Q (flog2 x + 1))%Q.
Proof.
  destruct x as [a b]. intros Hx. unfold Qlt in Hx. cbn in Hx.
  unfold flog2. cbn [Qnum Qden].
  set (M := Z.log2 (Zpos b) + 1).
  assert (HM : 0 <= M) by (pose proof (Z.log2_nonneg (Zpos b)); lia).
  assert (Hb : Zpos b < 2 ^ M) by (apply Z.log2_spec; lia).
  assert (HPM : 0 < 2 ^ M) by (apply Z.pow_pos_nonneg; lia).
  set (c := a * 2 ^ M / Zpos b).
  assert (Hc : 1 <= c).
  { apply Z.div_le_lower_bound; nia. }
  set (j := Z.log2 c).
  destruct (Z.log2_spec c ltac:(lia)) as [Hj1 Hj2]. fold j in Hj1, Hj2.
  assert (Hj : 0 <= j) by apply Z.log2_nonneg.
  assert (E1 : j - M + M = j) by lia. assert (E2 : j - M + 1 + M = Z.succ j) by lia.
  destruct (pow2_Q_scale (j - M) M a b HM ltac:(lia)) as [H1 _].
  destruct (pow2_Q_scale (j - M + 1) M a b HM ltac:(lia)) as [_ H2].
  rewrite E1 in H1. rewrite E2 in H2. split.
  - apply H1. pose proof (Z.mul_div_le (a * 2 ^ M) (Zpos b) ltac:(lia)). fold c in H. nia.
  - apply H2. pose proof (Z.mul_succ_div_gt (a * 2 ^ M) (Zpos b) ltac:(lia)).
    fold c in H. assert (c + 1 <= 2 ^ Z.succ j) by lia. nia.
Qed.

Lemma flog2_unique (x : Q) (k : Z) :
  (pow2_Q k <= x)%Q -> (x < pow2_Q (k + 1))%Q -> flog2 x = k.
Proof.
  intros H1 H2.
  assert (Hx : (0 < x)%Q) by (eapply Qlt_le_trans; [apply pow2_Q_pos | exact H1]).
  destruct (flog2_spec x Hx) as [H3 H4].
  destruct (Z.lt_trichotomy (flog2 x) k) as [Hl | [He | Hg]]; [| exact He |].
  - exfalso. assert ((pow2_Q (flog2 x + 1) <= pow2_Q k)%Q) by (apply pow2_Q_le; lia).
    apply (Qlt_irrefl x). eapply Qlt_le_trans; [exact H4 |].
    eapply Qle_trans; [exact H | exact H1].
  - exfalso. assert ((pow2_Q (k + 1) <= pow2_Q (flog2 x))%Q) by (apply pow2_Q_le; lia).
    apply (Qlt_irrefl x). eapply Qlt_le_trans; [exact H2 |].
    eapply Qle_trans; [exact H | exact H3].
Qed.

(** Rounding a positive integer to 53 significant bits, ties to even. *)
Definition round_int53 (a : Z) : Z :=
  let e := Z.log2 a in
  if e <? 53 then a else
  let s := e - 52 in
  let m := Z.shiftr a s in
  let r := a - Z.shiftl m s in
  let h := Z.shiftl 1 (s - 1) in
  let m' := if (h <? r) || ((r =? h) && Z.odd m) then m + 1 else m in
  Z.shiftl m' s.

Definition int_to_double (z : Z) : result Z :=
  let a := round_int53 (Z.abs z) in
  if 2 ^ 1024 <=? a then Err OverflowError else Ok (Z.sgn z * a).

Lemma round_int53_small (a : Z) : 0 < a < 2 ^ 53 -> round_int53 a = a.
Proof.
  intros H. unfold round_int53.
  assert (Z.log2 a < 53) by (apply Z.log2_lt_pow2; lia).
  apply Z.ltb_lt in H0. now rewrite H0.
Qed.

Lemma round_int53_pow2 (k : Z) : 0 <= k -> round_int53 (2 ^ k) = 2 ^ k.
Proof.
  intros Hk. unfold round_int53. rewrite Z.log2_pow2 by exact Hk.
  destruct (k <? 53) eqn:H53; [reflexivity |]. apply Z.ltb_ge in H53.
  rewrite Z.shiftr_div_pow2, !Z.shiftl_mul_pow2 by lia.
  assert (Ek : 2 ^ k = 2 ^ 52 * 2 ^ (k - 52))
    by (rewrite <- Z.pow_add_r by lia; f_equal; lia).
  rewrite Ek, Z.div_mul by (apply Z.pow_nonzero; lia).
  replace (2 ^ 52 * 2 ^ (k - 52) - 2 ^ 52 * 2 ^ (k - 52)) with 0 by ring.
  assert (Hh : 0 < 1 * 2 ^ (k - 52 - 1)) by (rewrite Z.mul_1_l; apply Z.pow_pos_nonneg; lia).
  assert (E : (1 * 2 ^ (k - 52 - 1) <? 0) = false) by (apply Z.ltb_ge; lia).
  assert (E' : (0 =? 1 * 2 ^ (k - 52 - 1)) = false) by (apply Z.eqb_neq; lia).
  rewrite E, E'. reflexivity.
Qed.

Lemma int_to_double_small (z : Z) : Z.abs z < 2 ^ 53 -> int_to_double z = Ok z.
Proof.
  intros H. unfold int_to_double.
  destruct (Z.eq_dec z 0) as [-> | Hz]; [reflexivity |].
  rewrite round_int53_small by lia.
  assert (2 ^ 53 < 2 ^ 1024) by (apply Z.pow_lt_mono_r; lia).
  assert (E : (2 ^ 1024 <=? Z.abs z) = false) by (apply Z.leb_gt; lia).
  rewrite E. destruct z; reflexivity.
Qed.

Lemma int_to_double_pow2 (k : Z) : 0 <= k ->
  int_to_double (2 ^ k) = if 1024 <=? k then Err OverflowError else Ok (2 ^ k).
Proof.
  intros Hk. unfold int_to_double.
  assert (Hp : 0 < 2 ^ k) by (apply Z.pow_pos_nonneg; lia).
  rewrite Z.abs_eq, round_int53_pow2 by lia.
  destruct (1024 <=? k) eqn:E.
  - apply Z.leb_le in E. assert (2 ^ 1024 <= 2 ^ k) by (apply Z.pow_le_mono_r; lia).
    apply Z.leb_le in H. now rewrite H.
  - apply Z.leb_gt in E. assert (2 ^ k < 2 ^ 1024) by (apply Z.pow_lt_mono_r; lia).
    apply Z.leb_gt in H. rewrite H, Z.sgn_pos by lia. f_equal. ring.
Qed.

(** [_PyLong_Frexp]: a positive int as [x * 2 ^ e] with [x] its mantissa
    rounded to 53 bits, in [[0.5, 1)]. *)
Definition long_frexp (a : Z) : Q * Z :=
  let r := round_int53 a in
  let e := Z.log2 r + 1 in
  (r # Z.to_pos (2 ^ e), e).

Lemma long_frexp_pow2 (k : Z) : 0 <= k ->
  (fst (long_frexp (2 ^ k)) == pow2_Q (-1))%Q /\ snd (long_frexp (2 ^ k)) = k + 1.
Proof.
  intros Hk. unfold long_frexp. rewrite round_int53_pow2, Z.log2_pow2 by exact Hk.
  cbn [fst snd]. split; [| reflexivity].
  assert (E : 2 ^ (k + 1) = 2 ^ k * 2) by (rewrite Z.pow_add_r by lia; reflexivity).
  assert (Hp : 0 < 2 ^ k) by (apply Z.pow_pos_nonneg; lia).
  rewrite E. unfold pow2_Q, Qeq. cbn [Qnum Qden Z.leb Z.opp].
  rewrite Z2Pos.id by lia. cbn. lia.
Qed.

(** Rounding a rational of at least 1 to the nearest double, ties to
    even (no overflow, no subnormal range). *)
Definition round_pos_double (q : Q) : Q :=
  let j := Z.log2 (Qfloor q) in
  let t := (q * pow2_Q (52 - j))%Q in
  let m := Qfloor t in
  let f := (t - inject_Z m)%Q in
  let m' := if negb (Qle_bool f (1 # 2)) || (Qeq_bool f (1 # 2) && Z.odd m) then m + 1 else m in
  (inject_Z m' * pow2_Q (j - 52))%Q.

Lemma round_pos_double_int (q : Q) (n : Z) : (q == inject_Z n)%Q -> 1 <= n < 2 ^ 53 ->
  (round_pos_double q == inject_Z n)%Q.
Proof.
  intros Hq Hn. unfold round_pos_double.
  rewrite (Qfloor_comp _ _ Hq), Qfloor_Z.
  set (j := Z.log2 n).
  assert (Hj : 0 <= j < 53) by (split; [apply Z.log2_nonneg | apply Z.log2_lt_pow2; lia]).
  assert (Ht : (q * pow2_Q (52 - j) == inject_Z (n * 2 ^ (52 - j)))%Q).
  { rewrite Hq. unfold pow2_Q. assert (E : (0 <=? 52 - j) = true) by (apply Z.leb_le; lia).
    rewrite E, inject_Z_mult. reflexivity. }
  rewrite (Qfloor_comp _ _ Ht), Qfloor_Z.
  assert (Hf : (q * pow2_Q (52 - j) - inject_Z (n * 2 ^ (52 - j)) == 0)%Q)
    by (rewrite Ht; ring).
  assert (E1 : Qle_bool (q * pow2_Q (52 - j) - inject_Z (n * 2 ^ (52 - j))) (1 # 2) = true).
  { apply Qle_bool_iff. rewrite Hf. discriminate. }
  assert (E2 : Qeq_bool (q * pow2_Q (52 - j) - inject_Z (n * 2 ^ (52 - j))) (1 # 2) = false).
  { apply not_true_iff_false. intros H. apply Qeq_bool_iff in H. rewrite Hf in H. discriminate. }
  rewrite E1, E2. cbn [negb orb andb].
  rewrite inject_Z_mult, <- Qmult_assoc, (Zpower_Qpower 2 (52 - j)) by lia.
  rewrite (pow2_Q_Qpower (j - 52)), <- Qpower_plus by discriminate.
  replace (52 - j + (j - 52)) with 0 by ring. cbn. ring.
Qed.

(** [int(f)] for a finite float [f]: truncation toward zero. *)
Definition py_trunc (q : Q) : Z := Z.quot (Qnum q) (Zpos (Qden q)).

Lemma py_trunc_int (q : Q) (n : Z) : (q == inject_Z n)%Q -> py_trunc q = n.
Proof.
  destruct q as [a b]. unfold Qeq, py_trunc. cbn. intros H. rewrite Z.mul_1_r in H.
  rewrite H. apply Z.quot_mul. lia.
Qed.

Lemma py_trunc_between (q : Q) (k : Z) : 0 <= k ->
  (inject_Z k <= q)%Q -> (q < inject_Z (k + 1))%Q -> py_trunc q = k.
Proof.
  destruct q as [a b]. unfold Qle, Qlt, py_trunc. cbn. intros Hk H1 H2.
  symmetry. apply Z.quot_unique with (r := a - Zpos b * k); nia.
Qed.

(** The C library routines used by CPython's [float_pow] and
    [math.log2]: [libm_pow2 y] is [pow(2.0, y)] ([None] when it overflows,
    which CPython reports as [OverflowError]) and [libm_log2 x] is
    [log2(x)] for a positive double [x]. *)
Record Libm := {
  libm_pow2 : Q -> option Q;
  libm_log2 : Q -> Q;
  libm_pow2_int : forall y n, (y == inject_Z n)%Q ->
    libm_pow2 y = if 1024 <=? n then None
                  else if -1075 <? n then Some (pow2_Q n) else Some 0%Q;
  libm_log2_pow2 : forall x k, (x == pow2_Q k)%Q -> libm_log2 x = inject_Z k;
  libm_log2_faithful : forall x k, (pow2_Q k <= x)%Q -> (x < pow2_Q (k + 1))%Q ->
    (inject_Z k <= libm_log2 x <= inject_Z (k + 1))%Q /\
    ((2 * x < 3 * pow2_Q k)%Q -> (libm_log2 x < inject_Z (k + 1))%Q)
}.

(** A platform meeting these requirements: exact on integral exponents
    and powers of two, [floor(log2 x)] elsewhere. *)
Definition libm0 : Libm.
Proof.
  refine {| libm_pow2 := fun y =>
              let n := Qfloor y in
              if 1024 <=? n then None
              else if -1075 <? n then Some (pow2_Q n) else Some 0%Q;
            libm_log2 := fun x => inject_Z (flog2 x) |}.
  - intros y n H. cbn. now rewrite (Qfloor_comp _ _ H), Qfloor_Z.
  - intros x k H. f_equal. apply flog2_unique; rewrite H; [apply Qle_refl | apply pow2_Q_lt; lia].
  - intros x k H1 H2. rewrite (flog2_unique x k H1 H2).
    split; [split; [apply Qle_refl | rewrite <- Zle_Qle; lia] | intros _; rewrite <- Zlt_Qlt; lia].
Defined.

(** [float(k)] for a Python int, then [pow(2.0, .)]. *)
Definition float_pow2 (lm : Libm) (y : Q) : result Value :=
  match libm_pow2 lm y with
  | Some r => Ok (VFloat r)
  | None => Err OverflowError
  end.

(** Python's [2 ** v]: an int exponent that is not negative gives an exact
    int; a negative int exponent is converted to a float and, like a
    float exponent, goes to [float_pow], i.e. to the C [pow];
    [True]/[False] are the ints 1 and 0. *)
Definition py_pow2 (lm : Libm) (v : Value) : result Value :=
  match v with
  | VBool b => Ok (VInt (if b then 2 else 1))
  | VInt k =>
      if 0 <=? k then Ok (VInt (2 ^ k))
      else let? d := int_to_double k in float_pow2 lm (inject_Z d)
  | VFloat q => float_pow2 lm q
  | VNone | VStr _ => Err TypeError
  end.

(** [int(math.log2(z))] for a Python int [z] ([loghelper]): a zero or
    negative int raises [ValueError]; otherwise [z] is converted to a
    double and passed to [log2], unless the conversion overflows, in which
    case [z = x * 2 ** e] ([_PyLong_Frexp]) and the result is
    [log2(x) + log2(2.0) * e], computed in doubles ([e] is far below
    [2 ** 53] for any int that fits in memory). *)
Definition int_log2 (lm : Libm) (z : Z) : result Value :=
  if 0 <? z then
    match int_to_double z with
    | Ok d => Ok (VInt (py_trunc (libm_log2 lm (inject_Z d))))
    | Err _ =>
        let '(x, e) := long_frexp z in
        Ok (VInt (py_trunc (round_pos_double
              (libm_log2 lm x + round_pos_double (libm_log2 lm (inject_Z 2) * inject_Z e)))))
    end
  else Err ValueError.

(** Python's [int(math.log2(v))]: [math.log2] raises [ValueError] on a
    non-positive argument and [TypeError] on a non-number; [int] truncates
    the float result. *)
Definition py_int_log2 (lm : Libm) (v : Value) : result Value :=
  match v with
  | VBool b => int_log2 lm (if b then 1 else 0)
  | VInt z => int_log2 lm z
  | VFloat q =>
      if 0 <? Qnum q then Ok (VInt (py_trunc (libm_log2 lm q))) else Err ValueError
  | VNone | VStr _ => Err TypeError
  end.

(* ------------------------------------------------------------------ *)
(** ** CARBS parameters *)

Inductive SpaceKind := LogSpace | LogitSpace | LinearSpace | OtherSpace.

(** A parameter space; [space_min]/[space_max] are [None] when the space
    object has no such attribute (reading it raises [AttributeError]). *)
Record Space := {
  kind : SpaceKind;
  space_min : option Value;
  space_max : option Value;
  is_integer : bool
}.

Record Param := {
  name : string;
  space : Space;
  search_center : Value
}.

(** The codec: the base class ([_transform_suggestion] is the identity) or
    [Pow2WandbCarbs] with its set [pow2_params], running on a platform
    whose [pow] and [log2] are [lm]. *)
Inductive Codec :=
  | Plain
  | Pow2 (lm : Libm) (pow2_params : list string).

Definition is_pow2 (c : Codec) (n : string) : bool :=
  match c with
  | Plain => false
  | Pow2 _ ps => existsb (String.eqb n) ps
  end.

(* ------------------------------------------------------------------ *)
(** ** Suggestions: encoding for display, decoding from a ledger record *)

(** A ledger record (a wandb run of the sweep), read-only. *)
Record Run := {
  run_id : string;
  run_config : dict;
  run_summary : dict
}.

(** [for param in self._carbs.params: if param.name in self.pow2_params:
    suggestion[param.name] = f(suggestion[param.name])] *)
Fixpoint map_pow2_params (c : Codec) (f : Value -> result Value)
    (params : list Param) (s : dict) : result dict :=
  match params with
  | [] => Ok s
  | p :: ps =>
      if is_pow2 c (name p) then
        let? v := getitem s (name p) in
        let? v' := f v in
        map_pow2_params c f ps (<[name p := v']> s)
      else map_pow2_params c f ps s
  end.

(** [_transform_suggestion]: identity in [WandbCarbs], [2 ** x] on the
    power-of-two parameters in [Pow2WandbCarbs]. *)
Definition transform_suggestion (params : list Param) (c : Codec) (s : dict)
    : result dict :=
  match c with
  | Plain => Ok s
  | Pow2 lm _ => map_pow2_params c (py_pow2 lm) params s
  end.

(** The dict comprehension
    [{param.name: run.config.get(param.name, param.search_center)
      for param in self._carbs.params}]. *)
Definition config_comprehension (params : list Param) (config : dict) : dict :=
  foldl (fun acc p => <[name p := get config (name p) (search_center p)]> acc)
    ∅ params.

(** [WandbCarbs._suggestion_from_run]. *)
Definition base_suggestion_from_run (params : list Param) (run : Run) : dict :=
  <["suggestion_uuid" := VStr (run_id run)]>
    (config_comprehension params (run_config run)).

(** [_suggestion_from_run] of either class: the subclass applies
    [int(math.log2(.))] to the power-of-two parameters. *)
Definition suggestion_from_run (params : list Param) (c : Codec) (run : Run)
    : result dict :=
  let s := base_suggestion_from_run params run in
  match c with
  | Plain => Ok s
  | Pow2 lm _ => map_pow2_params c (py_int_log2 lm) params s
  end.

(* ------------------------------------------------------------------ *)
(** ** The worker's world and the optimizer calls *)

(** Calls made into the CARBS optimizer, in order. [Remember v id] is
    [_remember_suggestion(v, SuggestionInBasic(to_basic(v)), id)]: its
    second argument is determined by [v]. *)
Inductive Call :=
  | SetSeed
  | Remember (v : dict) (id : string)
  | Observe (input : dict) (output : Value) (cost : Value) (is_failure : bool)
  | SuggestCall.

(** The mutable state: the worker's own wandb run summary and config, the
    log of optimizer calls and the two counters of [WandbCarbs]. *)
Record World := {
  summary : dict;
  config : dict;
  calls : list Call;
  num_observations : Z;
  num_failures : Z
}.

(** The state-and-error monad: an exception leaves the world as it was
    when the exception was raised (wandb writes are not rolled back). *)
Definition M (A : Type) := World -> World * result A.

Definition mret {A} (a : A) : M A := fun w => (w, Ok a).
Definition mbind {A B} (m : M A) (f : A -> M B) : M B :=
  fun w => match m w with
           | (w', Ok a) => f a w'
           | (w', Err e) => (w', Err e)
           end.
Definition raise {A} (e : Exc) : M A := fun w => (w, Err e).
Definition lift {A} (r : result A) : M A := fun w => (w, r).
Definition modify (f : World -> World) : M unit := fun w => (f w, Ok tt).
Definition gets {A} (f : World -> A) : M A := fun w => (w, Ok (f w)).

Notation "'let!' x := m 'in' k" := (mbind m (fun x => k))
  (at level 200, x name, m at level 100, k at level 200).

Definition set_summary (d : dict) (w : World) : World :=
  {| summary := d; config := config w; calls := calls w;
     num_observations := num_observations w; num_failures := num_failures w |}.
Definition set_config (d : dict) (w : World) : World :=
  {| summary := summary w; config := d; calls := calls w;
     num_observations := num_observations w; num_failures := num_failures w |}.
Definition push_call (c : Call) (w : World) : World :=
  {| summary := summary w; config := config w; calls := calls w ++ [c];
     num_observations := num_observations w; num_failures := num_failures w |}.
Definition incr_obs (w : World) : World :=
  {| summary := summary w; config := config w; calls := calls w;
     num_observations := num_observations w + 1; num_failures := num_failures w |}.
Definition incr_fail (w : World) : World :=
  {| summary := summary w; config := config w; calls := calls w;
     num_observations := num_observations w; num_failures := num_failures w + 1 |}.

(** [summary.update(u)]: the entries of [u] win. *)
Definition summary_update (u : dict) : M unit :=
  modify (fun w => set_summary (u ∪ summary w) w).

Definition call (c : Call) : M unit := modify (push_call c).

(* ------------------------------------------------------------------ *)
(** ** The reconciler *)

Section Reconciler.

Variable params : list Param.
Variable codec : Codec.

Definition state_key := "carbs.state".
Definition uuid_key := "suggestion_uuid".

(** [WandbCarbs._update_carbs_from_run]. *)
Definition update_carbs_from_run (run : Run) : M unit :=
  let! st := lift (getitem (run_summary run) state_key) in
  if py_eq_str st "initializing" then mret tt else
  let! sug := lift (suggestion_from_run params codec run) in
  let! _ := call (Remember sug (run_id run)) in
  if py_eq_str st "running" then mret tt else
  let objective := get (run_summary run) "carbs.objective" (VInt 0) in
  let cost := get (run_summary run) "carbs.cost" (VInt 0) in
  let! _ := (if py_eq_str st "failure" then modify incr_fail
             else modify incr_obs) in
  call (Observe sug objective cost (py_eq_str st "failure")).

(** The loop of [WandbCarbs._load_runs] over the records returned by the
    ledger query (already filtered and ordered by [created_at]). *)
Fixpoint load_runs (runs : list Run) : M unit :=
  match runs with
  | [] => mret tt
  | r :: rs => let! _ := update_carbs_from_run r in load_runs rs
  end.

(** Lines 47-48 of [__init__]: [wandb_config =
    self._transform_suggestion(deepcopy(self._suggestion));
    del wandb_config["suggestion_uuid"]].  The values are immutable, so
    the deep copy is the dict value itself. *)
Definition publish_config (sug : dict) : result dict :=
  let? t := transform_suggestion params codec sug in
  match t !! uuid_key with
  | Some _ => Ok (delete uuid_key t)
  | None => Err (KeyError uuid_key)
  end.

(** [WandbCarbs.__init__], given the ledger records and the dict that the
    optimizer's [suggest()] returns; the result is the stored
    [self._suggestion]. *)
Definition init (runs : list Run) (carbs_suggestion : dict) : M dict :=
  let! _ := call SetSeed in
  let! st := gets (fun w => summary w !! state_key) in
  if negb (is_none st) then raise AssertionError else
  let! _ := summary_update {[ state_key := VStr "initializing" ]} in
  let! _ := load_runs runs in
  let! _ := call SuggestCall in
  let! wc := lift (publish_config carbs_suggestion) in
  let! _ := modify (fun w => set_config (wc ∪ config w) w) in
  let! _ := summary_update {[ state_key := VStr "running" ]} in
  mret carbs_suggestion.

End Reconciler.

(* ------------------------------------------------------------------ *)
(** ** The run lifecycle *)

(** [WandbCarbs.record_observation]. *)
Definition record_observation (objective cost : Value) (allow_update : bool)
    : M unit :=
  let! _ := (if allow_update then mret tt else
             let! s := gets summary in
             let! st := lift (getitem s state_key) in
             if py_eq_str st "running" then mret tt else raise AssertionError) in
  summary_update (<["carbs.objective" := objective]>
                   (<["carbs.cost" := cost]>
                     {[ state_key := VStr "success" ]})).

(** [WandbCarbs.record_failure]. *)
Definition record_failure : M unit :=
  summary_update {[ state_key := VStr "failure" ]}.

(* ------------------------------------------------------------------ *)
(** ** Concrete inputs *)

Definition linear_space : Space :=
  {| kind := LinearSpace; space_min := Some (VInt 0); space_max := Some (VInt 10);
     is_integer := true |}.

Definition param_x : Param :=
  {| name := "x"; space := linear_space; search_center := VInt 1 |}.

Definition param_batch (center : Value) : Param :=
  {| name := "batch"; space := linear_space; search_center := center |}.

Definition empty_world : World :=
  {| summary := ∅; config := ∅; calls := []; num_observations := 0;
     num_failures := 0 |}.

Definition world_with_state (st : string) : World :=
  set_summary {[ state_key := VStr st ]} empty_world.

Definition run_A : Run :=
  {| run_id := "a"; run_config := {[ "x" := VInt 4 ]};
     run_summary := <["carbs.objective" := VInt 10]> (<["carbs.cost" := VInt 2]>
                      {[ state_key := VStr "success" ]}) |}.

Definition run_B : Run :=
  {| run_id := "b"; run_config := {[ "x" := VInt 4 ]};
     run_summary := {[ state_key := VStr "failure" ]} |}.

Definition run_C : Run :=
  {| run_id := "c"; run_config := {[ "x" := VInt 8 ]};
     run_summary := {[ state_key := VStr "running" ]} |}.

Definition vec (x : Z) (id : string) : dict :=
  <[uuid_key := VStr id]> {[ "x" := VInt x ]}.

(* ------------------------------------------------------------------ *)
(** ** [suggest()] and the aliasing of the stored suggestion *)

(** The Python heap as far as [suggest] is concerned: dict objects at
    locations, the location of [self._suggestion], the next fresh
    location, and the locations of the dicts handed out by [suggest()]. *)
Record Obj := {
  heap : gmap nat dict;
  next_loc : nat;
  stored : nat;
  returned : list nat
}.

Section Suggest.

Variable params : list Param.
Variable codec : Codec.

(** [WandbCarbs.suggest]: [deepcopy] allocates a fresh dict with the
    contents of [self._suggestion] (its values are immutable), and
    [_transform_suggestion] rewrites that fresh dict in place. *)
Definition suggest (o : Obj) : Obj * result nat :=
  let l := next_loc o in
  let h1 := <[l := default ∅ (heap o !! stored o)]> (heap o) in
  match transform_suggestion params codec (default ∅ (h1 !! l)) with
  | Ok t =>
      ({| heap := <[l := t]> h1; next_loc := S l; stored := stored o;
          returned := returned o ++ [l] |}, Ok l)
  | Err e =>
      ({| heap := h1; next_loc := S l; stored := stored o;
          returned := returned o |}, Err e)
  end.

(** What a caller does after construction: call [suggest()], or mutate
    the [i]-th dict it received so far, leaving it with contents [d]. *)
Inductive Op :=
  | CallSuggest
  | Mutate (i : nat) (d : dict).

(** Runs the operations and lists, for each [suggest()] call, the
    contents of the dict it returned (or the exception it raised). *)
Fixpoint run_ops (o : Obj) (ops : list Op) : list (result dict) :=
  match ops with
  | [] => []
  | CallSuggest :: ops' =>
      let '(o', r) := suggest o in
      match r with
      | Ok l => Ok (default ∅ (heap o' !! l)) :: run_ops o' ops'
      | Err e => Err e :: run_ops o' ops'
      end
  | Mutate i d :: ops' =>
      match returned o !! i with
      | Some l =>
          run_ops {| heap := <[l := d]> (heap o); next_loc := next_loc o;
                     stored := stored o; returned := returned o |} ops'
      | None => run_ops o ops'
      end
  end.

End Suggest.

(** The heap right after construction: the stored suggestion only. *)
Definition after_init (s0 : dict) : Obj :=
  {| heap := {[0%nat := s0]}; next_loc := 1; stored := 0; returned := [] |}.

(* ------------------------------------------------------------------ *)
(** ** The sweep configuration translator *)

Record Entry := {
  e_min : Value;
  e_max : Value;
  distribution : option string
}.

Record SweepCfg := {
  method : string;
  metric_goal : string;
  metric_name : string;
  parameters : gmap string Entry;
  cfg_name : string
}.

(** [_wandb_distribution]: falling off the end returns [None]. *)
Definition wandb_distribution (p : Param) : option string :=
  match kind (space p) with
  | LogSpace => Some "log_uniform_values"
  | LogitSpace => Some "uniform"
  | LinearSpace =>
      if is_integer (space p) then Some "int_uniform" else Some "uniform"
  | OtherSpace => None
  end.

Definition attr (o : option Value) : result Value :=
  match o with Some v => Ok v | None => Err AttributeError end.

(** The loop of [_wandb_sweep_cfg_from_carbs_params] filling
    [wandb_sweep_cfg["parameters"]]. *)
Fixpoint sweep_parameters (ps : list Param) (acc : gmap string Entry)
    : result (gmap string Entry) :=
  match ps with
  | [] => Ok acc
  | p :: ps' =>
      let? mn := attr (space_min (space p)) in
      let? mx := attr (space_max (space p)) in
      sweep_parameters ps'
        (<[name p := {| e_min := mn; e_max := mx;
                        distribution := wandb_distribution p |}]> acc)
  end.

Definition wandb_sweep_cfg_from_carbs_params (nm : string) (ps : list Param)
    : result SweepCfg :=
  let? prm := sweep_parameters ps ∅ in
  Ok {| method := "bayes"; metric_goal := "maximize";
        metric_name := "eval_metric"; parameters := prm; cfg_name := nm |}.

(* ------------------------------------------------------------------ *)
(** ** The older copy [src/wandb_carbs/wandb_carbs.py] *)

Module Legacy.

(** [WandbCarbs._suggestion_from_run] of the older copy: no
    [suggestion_uuid] key and no codec. *)
Definition suggestion_from_run (params : list Param) (run : Run) : dict :=
  config_comprehension params (run_config run).

(** [WandbCarbs._process_run]: a [running] record makes the optimizer
    produce (and discard) a suggestion; any other record is observed. *)
Definition process_run (params : list Param) (run : Run) : M unit :=
  let! st := lift (getitem (run_summary run) state_key) in
  if py_eq_str st "running" then call SuggestCall else
  let sug := suggestion_from_run params run in
  let objective := get (run_summary run) "carbs.objective" (VInt 0) in
  let cost := get (run_summary run) "carbs.cost" (VInt 0) in
  call (Observe sug objective cost (py_eq_str st "failure")).

(** The loop of [_load_runs]. *)
Fixpoint load_runs (params : list Param) (runs : list Run) : M unit :=
  match runs with
  | [] => mret tt
  | r :: rs => let! _ := process_run params r in load_runs params rs
  end.

(** [WandbCarbs.suggest] of the older copy: [return self._suggestion], the
    stored object itself. *)
Definition suggest (o : Obj) : Obj * nat :=
  ({| heap := heap o; next_loc := next_loc o; stored := stored o;
      returned := returned o ++ [stored o] |}, stored o).

Fixpoint run_ops (o : Obj) (ops : list Op) : list (result dict) :=
  match ops with
  | [] => []
  | CallSuggest :: ops' =>
      let '(o', l) := suggest o in
      Ok (default ∅ (heap o' !! l)) :: run_ops o' ops'
  | Mutate i d :: ops' =>
      match returned o !! i with
      | Some l =>
          run_ops {| heap := <[l := d]> (heap o); next_loc := next_loc o;
                     stored := stored o; returned := returned o |} ops'
      | None => run_ops o ops'
      end
  end.

End Legacy.

(* ------------------------------------------------------------------ *)
(** * Properties *)

Example scenario_A :
  fst (update_carbs_from_run [param_x] Plain run_A empty_world) =
  incr_obs (push_call (Observe (vec 4 "a") (VInt 10) (VInt 2) false)
              (push_call (Remember (vec 4 "a") "a") empty_world)).
Proof. vm_compute. reflexivity. Qed.

Lemma py_eq_str_spec (v : Value) (s : string) :
  py_eq_str v s = true <-> v = VStr s.
Proof.
  destruct v; simpl; split; try discriminate; try (intros H; inversion H; fail).
  - intros H. apply String.eqb_eq in H. now subst.
  - intros H. inversion H. apply String.eqb_refl.
Qed.

Lemma py_eq_str_diff (s t : string) : s <> t -> py_eq_str (VStr s) t = false.
Proof. intros H. simpl. now apply String.eqb_neq. Qed.

Ltac unfold_m :=
  unfold mbind, mret, lift, call, modify, raise, gets in *.

(** ** C1: a [running] record is registered as pending, never observed *)

(** C1. For a ledger record whose state is [running], the reconciler
    builds the decoded vector and registers it with [remember_suggestion]
    under the record's id, making no other optimizer call (in particular
    no [observe]); if the decoding raises, nothing is registered. *)
Theorem running_record_remembered_not_observed
    (params : list Param) (codec : Codec) (run : Run) (w : World) :
  run_summary run !! state_key = Some (VStr "running") ->
  update_carbs_from_run params codec run w =
    match suggestion_from_run params codec run with
    | Ok v => (push_call (Remember v (run_id run)) w, Ok tt)
    | Err e => (w, Err e)
    end.
Proof.
  intros Hst. unfold update_carbs_from_run, getitem. unfold_m.
  rewrite Hst. simpl.
  destruct (suggestion_from_run params codec run); reflexivity.
Qed.

Lemma running_record_remembered_not_observed_witness :
  run_summary run_C !! state_key = Some (VStr "running") /\
  update_carbs_from_run [param_x] Plain run_C empty_world =
    match suggestion_from_run [param_x] Plain run_C with
    | Ok v => (push_call (Remember v (run_id run_C)) empty_world, Ok tt)
    | Err e => (empty_world, Err e)
    end.
Proof.
  split; [reflexivity |].
  apply running_record_remembered_not_observed. reflexivity.
Defined.

(** ** C2: per-record optimizer calls *)

(** C2 (as stated, refuted). A [success] record makes two optimizer calls
    in one pass: [remember_suggestion] and then [observe]. *)
Lemma success_record_remembered_and_observed :
  calls (fst (update_carbs_from_run [param_x] Plain run_A empty_world)) =
    [Remember (vec 4 "a") "a"; Observe (vec 4 "a") (VInt 10) (VInt 2) false].
Proof. vm_compute. reflexivity. Qed.

(** C2 (amended). Each record processed appends to the optimizer calls:
    nothing when it has no [carbs.state] (a [KeyError]), when its state is
    [initializing] or when [_suggestion_from_run] raises; otherwise,
    with [v] the vector [_suggestion_from_run] decodes, exactly one
    [remember_suggestion(v, ., id)] when it is [running], and exactly one
    [remember_suggestion(v, ., id)] followed by exactly one [observe] of
    the same [v] (with the summary's objective and cost, 0 when absent,
    and [is_failure] true exactly for [failure]) in any other state.  So
    a record is registered at most once and observed at most once. *)
Theorem per_record_calls
    (params : list Param) (codec : Codec) (run : Run) (w : World) :
  calls (fst (update_carbs_from_run params codec run w)) =
    calls w ++
    match run_summary run !! state_key with
    | None => []
    | Some st =>
        if py_eq_str st "initializing" then [] else
        match suggestion_from_run params codec run with
        | Err _ => []
        | Ok v =>
            if py_eq_str st "running" then [Remember v (run_id run)]
            else [Remember v (run_id run);
                  Observe v (get (run_summary run) "carbs.objective" (VInt 0))
                            (get (run_summary run) "carbs.cost" (VInt 0))
                            (py_eq_str st "failure")]
        end
    end.
Proof.
  unfold update_carbs_from_run, getitem. unfold_m.
  destruct (run_summary run !! state_key) as [st |]; simpl; [| now rewrite app_nil_r].
  destruct (py_eq_str st "initializing"); simpl; [now rewrite app_nil_r |].
  destruct (suggestion_from_run params codec run) as [v | e]; simpl; [| now rewrite app_nil_r].
  destruct (py_eq_str st "running"); simpl; [reflexivity |].
  destruct (py_eq_str st "failure"); simpl; rewrite <- app_assoc; reflexivity.
Qed.

(** ** C3: resolved records are observed with defaults *)

(** C3. For a record in state [success] or [failure], the reconciler
    registers the decoded vector, counts it, and submits exactly one
    observation with that vector, the objective (0 when absent), the cost
    (0 when absent) and [is_failure] true exactly for [failure]. *)
Theorem resolved_record_observed
    (params : list Param) (codec : Codec) (run : Run) (w : World) (st : string) :
  (st = "success" \/ st = "failure") ->
  run_summary run !! state_key = Some (VStr st) ->
  update_carbs_from_run params codec run w =
    match suggestion_from_run params codec run with
    | Ok v =>
        let w1 := push_call (Remember v (run_id run)) w in
        let w2 := if String.eqb st "failure" then incr_fail w1 else incr_obs w1 in
        (push_call (Observe v (get (run_summary run) "carbs.objective" (VInt 0))
                              (get (run_summary run) "carbs.cost" (VInt 0))
                              (String.eqb st "failure")) w2, Ok tt)
    | Err e => (w, Err e)
    end.
Proof.
  intros Hs Hst. unfold update_carbs_from_run, getitem. unfold_m.
  rewrite Hst. simpl.
  assert (Hi : String.eqb st "initializing" = false)
    by (apply String.eqb_neq; destruct Hs; subst; discriminate).
  assert (Hr : String.eqb st "running" = false)
    by (apply String.eqb_neq; destruct Hs; subst; discriminate).
  rewrite Hi. destruct (suggestion_from_run params codec run); simpl; [| reflexivity].
  rewrite Hr. destruct (String.eqb st "failure"); reflexivity.
Qed.

Lemma resolved_record_observed_witness :
  update_carbs_from_run [param_x] Plain run_B empty_world =
    (push_call (Observe (vec 4 "b") (VInt 0) (VInt 0) true)
       (incr_fail (push_call (Remember (vec 4 "b") "b") empty_world)), Ok tt).
Proof.
  rewrite (resolved_record_observed [param_x] Plain run_B empty_world "failure");
    [| right; reflexivity | reflexivity].
  vm_compute. reflexivity.
Defined.

(** ** C4: the power-of-two codec round-trips integer exponents *)

Lemma pow2_Q_num_pos (k : Z) : (0 <? Qnum (pow2_Q k)) = true.
Proof.
  apply Z.ltb_lt. pose proof (pow2_Q_pos k) as H. unfold Qlt in H. cbn in H. lia.
Qed.

(** Decoding the float [2.0 ** k]. *)
Lemma py_int_log2_pow2_float (lm : Libm) (k : Z) :
  py_int_log2 lm (VFloat (pow2_Q k)) = Ok (VInt k).
Proof.
  cbn [py_int_log2]. rewrite pow2_Q_num_pos, (libm_log2_pow2 lm (pow2_Q k) k (Qeq_refl _)).
  f_equal. f_equal. apply py_trunc_int. reflexivity.
Qed.

Lemma py_pow2_nonneg (lm : Libm) (k : Z) : 0 <= k -> py_pow2 lm (VInt k) = Ok (VInt (2 ^ k)).
Proof. intros Hk. unfold py_pow2. apply Z.leb_le in Hk. now rewrite Hk. Qed.

(** Decoding the int [2 ** k]: through [log2] of the converted double
    for [k < 1024], through [_PyLong_Frexp] beyond. *)
Lemma int_log2_pow2 (lm : Libm) (k : Z) : 0 <= k < 2 ^ 52 ->
  int_log2 lm (2 ^ k) = Ok (VInt k).
Proof.
  intros Hk. unfold int_log2.
  assert (Hp : 0 < 2 ^ k) by (apply Z.pow_pos_nonneg; lia).
  apply Z.ltb_lt in Hp. rewrite Hp, int_to_double_pow2 by lia.
  destruct (1024 <=? k) eqn:E.
  - apply Z.leb_le in E. destruct (long_frexp_pow2 k ltac:(lia)) as [Hx He].
    destruct (long_frexp (2 ^ k)) as [x e]. cbn [fst snd] in Hx, He. subst e.
    rewrite (libm_log2_pow2 lm x (-1) Hx).
    rewrite (libm_log2_pow2 lm (inject_Z 2) 1 (Qeq_refl _)).
    assert (H53 : 2 ^ 52 < 2 ^ 53) by (apply Z.pow_lt_mono_r; lia).
    assert (H1 : (round_pos_double (inject_Z 1 * inject_Z (k + 1)) == inject_Z (k + 1))%Q).
    { apply round_pos_double_int; [| lia]. rewrite <- inject_Z_mult, Z.mul_1_l. reflexivity. }
    assert (H2 : (inject_Z (-1) + round_pos_double (inject_Z 1 * inject_Z (k + 1))
                  == inject_Z k)%Q).
    { rewrite H1, <- inject_Z_plus. apply inject_Z_injective. lia. }
    f_equal. f_equal. apply py_trunc_int. apply round_pos_double_int; [exact H2 | lia].
  - f_equal. f_equal. apply py_trunc_int.
    rewrite (libm_log2_pow2 lm (inject_Z (2 ^ k)) k); [reflexivity |].
    unfold pow2_Q. destruct Hk as [Hk _]. apply Z.leb_le in Hk.
    now rewrite Hk.
Qed.

(** Encoding an int exponent and decoding the result. *)
Lemma pow2_int_roundtrip (lm : Libm) (k : Z) : -1074 <= k < 2 ^ 52 ->
  rbind (py_pow2 lm (VInt k)) (py_int_log2 lm) = Ok (VInt k).
Proof.
  intros Hk. destruct (Z.le_gt_cases 0 k) as [H0 | H0].
  - rewrite py_pow2_nonneg by exact H0. apply int_log2_pow2. lia.
  - unfold py_pow2. assert (E : (0 <=? k) = false) by (apply Z.leb_gt; lia).
    rewrite E, int_to_double_small by (rewrite Z.abs_neq by lia; lia). cbn [rbind].
    unfold float_pow2. rewrite (libm_pow2_int lm (inject_Z k) k (Qeq_refl _)).
    assert (E1 : (1024 <=? k) = false) by (apply Z.leb_gt; lia).
    assert (E2 : (-1075 <? k) = true) by (apply Z.ltb_lt; lia).
    rewrite E1, E2. apply py_int_log2_pow2_float.
Qed.

Lemma pow2_float_roundtrip (lm : Libm) (k : Z) : -1074 <= k <= 1023 ->
  rbind (py_pow2 lm (VFloat (inject_Z k))) (py_int_log2 lm) = Ok (VInt k).
Proof.
  intros Hk. cbn [py_pow2]. unfold float_pow2.
  rewrite (libm_pow2_int lm (inject_Z k) k (Qeq_refl _)).
  assert (E1 : (1024 <=? k) = false) by (apply Z.leb_gt; lia).
  assert (E2 : (-1075 <? k) = true) by (apply Z.ltb_lt; lia).
  rewrite E1, E2. apply py_int_log2_pow2_float.
Qed.

(** One power-of-two parameter present in the dict. *)
Lemma map_pow2_params_single (c : Codec) (f : Value -> result Value) (p : Param)
    (s : dict) (v v' : Value) :
  is_pow2 c (name p) = true -> s !! name p = Some v -> f v = Ok v' ->
  map_pow2_params c f [p] s = Ok (<[name p := v']> s).
Proof.
  intros Hc Hs Hf. cbn [map_pow2_params]. rewrite Hc. unfold getitem. rewrite Hs.
  cbn [rbind]. rewrite Hf. reflexivity.
Qed.

(** Scenario D: a suggestion with [batch = 5] and a ledger config with
    [batch = 32]. *)
Definition codec_D (lm : Libm) : Codec := Pow2 lm ["batch"].
Definition run_D : Run :=
  {| run_id := "d"; run_config := {[ "batch" := VInt 32 ]};
     run_summary := {[ state_key := VStr "success" ]} |}.

(** C4. On any platform whose [pow] and [log2] are exact on powers of two,
    decoding ([int(math.log2(.))]) the encoding ([2 ** k]) gives back the
    integer exponent [k] over the range of doubles: an int [k] with
    [-1074 <= k < 2 ** 52] or a float [k] with [-1074 <= k <= 1023].
    Outside that range the encoding underflows to [0.0] (an int
    [k <= -1075], whose decoding raises [ValueError]) or overflows (a
    float [k >= 1024] raises [OverflowError]).  With [batch] a
    power-of-two parameter, internal value 5 is published as 32 and a
    ledger config [batch = 32] decodes to 5. *)
Theorem pow2_roundtrip (lm : Libm) :
  (forall k : Z, -1074 <= k < 2 ^ 52 ->
     rbind (py_pow2 lm (VInt k)) (py_int_log2 lm) = Ok (VInt k)) /\
  (forall k : Z, -1074 <= k <= 1023 ->
     rbind (py_pow2 lm (VFloat (inject_Z k))) (py_int_log2 lm) = Ok (VInt k)) /\
  (forall k : Z, - 2 ^ 53 < k <= -1075 ->
     py_pow2 lm (VInt k) = Ok (VFloat 0%Q) /\
     rbind (py_pow2 lm (VInt k)) (py_int_log2 lm) = Err ValueError) /\
  (forall k : Z, 1024 <= k -> py_pow2 lm (VFloat (inject_Z k)) = Err OverflowError) /\
  transform_suggestion [param_batch (VInt 5)] (codec_D lm)
      (<[uuid_key := VStr "d"]> {[ "batch" := VInt 5 ]}) =
    Ok (<["batch" := VInt 32]> (<[uuid_key := VStr "d"]> {[ "batch" := VInt 5 ]})) /\
  suggestion_from_run [param_batch (VInt 5)] (codec_D lm) run_D =
    Ok (<["batch" := VInt 5]> (<[uuid_key := VStr "d"]> {[ "batch" := VInt 32 ]})).
Proof.
  split; [| split; [| split; [| split; [| split]]]].
  - apply pow2_int_roundtrip.
  - apply pow2_float_roundtrip.
  - intros k Hk.
    assert (Hpow : py_pow2 lm (VInt k) = Ok (VFloat 0%Q)).
    { unfold py_pow2. assert (E : (0 <=? k) = false) by (apply Z.leb_gt; lia).
      rewrite E, int_to_double_small by (rewrite Z.abs_neq by lia; lia). cbn [rbind].
      unfold float_pow2. rewrite (libm_pow2_int lm (inject_Z k) k (Qeq_refl _)).
      assert (E1 : (1024 <=? k) = false) by (apply Z.leb_gt; lia).
      assert (E2 : (-1075 <? k) = false) by (apply Z.ltb_ge; lia).
      rewrite E1, E2. reflexivity. }
    split; [exact Hpow |]. rewrite Hpow. reflexivity.
  - intros k Hk. cbn [py_pow2]. unfold float_pow2.
    rewrite (libm_pow2_int lm (inject_Z k) k (Qeq_refl _)).
    apply Z.leb_le in Hk. now rewrite Hk.
  - unfold transform_suggestion, codec_D.
    rewrite (map_pow2_params_single _ _ _ _ (VInt 5) (VInt 32)); reflexivity.
  - unfold suggestion_from_run, codec_D.
    rewrite (map_pow2_params_single _ _ _ _ (VInt 32) (VInt 5)).
    + vm_compute. reflexivity.
    + reflexivity.
    + vm_compute. reflexivity.
    + apply (int_log2_pow2 lm 5). lia.
Qed.

Lemma pow2_roundtrip_witness :
  rbind (py_pow2 libm0 (VInt (-3))) (py_int_log2 libm0) = Ok (VInt (-3)) /\
  rbind (py_pow2 libm0 (VFloat (inject_Z 10))) (py_int_log2 libm0) = Ok (VInt 10) /\
  rbind (py_pow2 libm0 (VInt (-1075))) (py_int_log2 libm0) = Err ValueError /\
  py_pow2 libm0 (VFloat (inject_Z 1024)) = Err OverflowError.
Proof.
  destruct (pow2_roundtrip libm0) as (H1 & H2 & H3 & H4 & _).
  split; [apply H1; lia |]. split; [apply H2; lia |].
  split; [apply (proj2 (H3 (-1075) ltac:(lia))) | apply H4; lia].
Defined.

(** ** C5: missing fields in a ledger config *)

Definition run_E : Run :=
  {| run_id := "e"; run_config := ∅;
     run_summary := {[ state_key := VStr "running" ]} |}.

(** [int(math.log2(5))] is 2 on any platform: [log2(5.0)] lies in [[2, 3)]. *)
Lemma int_log2_5 (lm : Libm) : int_log2 lm 5 = Ok (VInt 2).
Proof.
  unfold int_log2. cbn [Z.ltb Z.compare]. rewrite int_to_double_small by (cbn; lia).
  assert (H1 : (pow2_Q 2 <= inject_Z 5)%Q) by (vm_compute; (reflexivity || discriminate)).
  assert (H2 : (inject_Z 5 < pow2_Q (2 + 1))%Q) by (vm_compute; (reflexivity || discriminate)).
  assert (H3 : (2 * inject_Z 5 < 3 * pow2_Q 2)%Q) by (vm_compute; (reflexivity || discriminate)).
  destruct (libm_log2_faithful lm (inject_Z 5) 2 H1 H2) as [[Hl _] Hu].
  specialize (Hu H3). f_equal. f_equal. apply py_trunc_between; [lia | exact Hl | exact Hu].
Qed.

(** C5 (code defect). The substituted [search_center] lives in the
    optimizer's (exponent) space, yet [Pow2WandbCarbs._suggestion_from_run]
    decodes it as if it were an external value: a power-of-two parameter
    with [search_center = 0] that a record's config omits makes
    [math.log2(0)] raise [ValueError], so the reconstruction (and the
    reconciliation pass with it) fails; with [search_center = 5] it
    reconstructs 2 rather than 5, on any platform whose [log2] has an
    error below one unit in the last place. *)
Theorem missing_pow2_param_decodes_search_center (lm : Libm) :
  suggestion_from_run [param_batch (VInt 0)] (codec_D lm) run_E = Err ValueError /\
  update_carbs_from_run [param_batch (VInt 0)] (codec_D lm) run_E empty_world =
    (empty_world, Err ValueError) /\
  suggestion_from_run [param_batch (VInt 5)] (codec_D lm) run_E =
    Ok (<["batch" := VInt 2]> (<[uuid_key := VStr "e"]> {[ "batch" := VInt 5 ]})).
Proof.
  split; [| split].
  - vm_compute. reflexivity.
  - vm_compute. reflexivity.
  - unfold suggestion_from_run, codec_D.
    rewrite (map_pow2_params_single _ _ _ _ (VInt 5) (VInt 2)).
    + vm_compute. reflexivity.
    + reflexivity.
    + vm_compute. reflexivity.
    + apply int_log2_5.
Qed.

(** ** C6: the lifecycle preconditions *)

Definition is_err {A} (r : result A) : bool :=
  match r with Ok _ => false | Err _ => true end.

(** Only the two [assert] statements raise [AssertionError]. *)
Definition not_assert {A} (r : result A) : Prop :=
  match r with Err AssertionError => False | _ => True end.

Lemma map_pow2_params_not_assert (c : Codec) (f : Value -> result Value)
    (ps : list Param) (s : dict) :
  (forall v, not_assert (f v)) -> not_assert (map_pow2_params c f ps s).
Proof.
  intros Hf. revert s. induction ps as [| p ps IH]; intros s; simpl; [exact I |].
  destruct (is_pow2 c (name p)); [| apply IH].
  unfold getitem. destruct (s !! name p) as [v |]; simpl; [| exact I].
  specialize (Hf v). destruct (f v) as [v' | e]; simpl; [apply IH | exact Hf].
Qed.

Lemma py_pow2_not_assert lm v : not_assert (py_pow2 lm v).
Proof.
  assert (Hf : forall y, not_assert (float_pow2 lm y))
    by (intros y; unfold float_pow2; destruct (libm_pow2 lm y); exact I).
  destruct v; cbn [py_pow2]; try exact I.
  - destruct (0 <=? z); [exact I |]. unfold int_to_double.
    destruct (2 ^ 1024 <=? round_int53 (Z.abs z)); [exact I | exact (Hf _)].
  - exact (Hf _).
Qed.

Lemma int_log2_not_assert lm z : not_assert (int_log2 lm z).
Proof.
  unfold int_log2. destruct (0 <? z); [| exact I].
  destruct (int_to_double z); [exact I |]. destruct (long_frexp z); exact I.
Qed.

Lemma py_int_log2_not_assert lm v : not_assert (py_int_log2 lm v).
Proof.
  destruct v; cbn [py_int_log2]; try exact I; try apply int_log2_not_assert.
  destruct (0 <? Qnum q); exact I.
Qed.

Lemma suggestion_from_run_not_assert params c run :
  not_assert (suggestion_from_run params c run).
Proof.
  unfold suggestion_from_run. destruct c; [exact I |].
  apply map_pow2_params_not_assert, py_int_log2_not_assert.
Qed.

Lemma update_carbs_from_run_not_assert params c run w :
  not_assert (snd (update_carbs_from_run params c run w)).
Proof.
  unfold update_carbs_from_run, getitem. unfold_m.
  destruct (run_summary run !! state_key) as [st |]; simpl; [| exact I].
  destruct (py_eq_str st "initializing"); simpl; [exact I |].
  pose proof (suggestion_from_run_not_assert params c run) as H.
  destruct (suggestion_from_run params c run); simpl; [| exact H].
  destruct (py_eq_str st "running"); simpl; [exact I |].
  destruct (py_eq_str st "failure"); exact I.
Qed.

Lemma load_runs_not_assert params c runs w :
  not_assert (snd (load_runs params c runs w)).
Proof.
  revert w. induction runs as [| r rs IH]; intros w; simpl; [exact I |].
  unfold mbind at 1.
  pose proof (update_carbs_from_run_not_assert params c r w) as H.
  destruct (update_carbs_from_run params c r w) as [w' [[] | e]]; [apply IH | exact H].
Qed.

Lemma publish_config_not_assert params c s :
  not_assert (publish_config params c s).
Proof.
  unfold publish_config, transform_suggestion.
  assert (H : not_assert (match c with Plain => Ok s
               | Pow2 lm _ => map_pow2_params c (py_pow2 lm) params s end)).
  { destruct c; [exact I | apply map_pow2_params_not_assert, py_pow2_not_assert]. }
  destruct (match c with Plain => Ok s
            | Pow2 lm _ => map_pow2_params c (py_pow2 lm) params s end) as [t | e];
    simpl; [| exact H].
  destruct (t !! uuid_key); exact I.
Qed.

(** C6. Construction raises the precondition violation exactly when the
    worker's own summary already carries a [carbs.state] (one that is not
    [None]), and then the summary is untouched; [record_observation]
    without [allow_update] fails exactly when the state is not [running]
    (including when it is missing), and then nothing is changed. *)
Theorem lifecycle_guards :
  (forall params codec runs sug w,
     (snd (init params codec runs sug w) = Err AssertionError <->
        is_none (summary w !! state_key) = false) /\
     (is_none (summary w !! state_key) = false ->
        summary (fst (init params codec runs sug w)) = summary w)) /\
  (forall objective cost w,
     (is_err (snd (record_observation objective cost false w)) = true <->
        summary w !! state_key <> Some (VStr "running")) /\
     (is_err (snd (record_observation objective cost false w)) = true ->
        fst (record_observation objective cost false w) = w)).
Proof.
  split.
  - intros params codec runs sug w.
    unfold init, summary_update. unfold_m. simpl.
    destruct (is_none (summary w !! state_key)) eqn:Hn; simpl;
      [| split; [split; auto | auto]].
    split; [| discriminate].
    split; [| discriminate]. intros Hinit. exfalso.
    set (w2 := set_summary _ _) in Hinit.
    pose proof (load_runs_not_assert params codec runs w2) as Hl.
    destruct (load_runs params codec runs w2) as [w3 [[] | e]];
      [| simpl in Hinit; inversion Hinit; subst; exact Hl].
    pose proof (publish_config_not_assert params codec sug) as Hp.
    simpl in Hinit.
    destruct (publish_config params codec sug); simpl in Hinit;
      inversion Hinit; subst; exact Hp.
  - intros objective cost w.
    unfold record_observation, summary_update, getitem. unfold_m. simpl.
    destruct (summary w !! state_key) as [st |] eqn:Hst; simpl.
    + destruct (py_eq_str st "running") eqn:Hr; simpl.
      * apply py_eq_str_spec in Hr. subst. split; [split; [discriminate | tauto] | discriminate].
      * split; [split; [| reflexivity] | reflexivity].
        intros _ Heq. inversion Heq; subst. simpl in Hr. discriminate.
    + split; [split; [intros _ Heq; discriminate | reflexivity] | reflexivity].
Qed.

Lemma lifecycle_guards_witness :
  is_none (summary (world_with_state "running") !! state_key) = false /\
  summary (fst (init [param_x] Plain [run_A] (vec 1 "n") (world_with_state "running"))) =
    summary (world_with_state "running").
Proof.
  split; [reflexivity |].
  destruct lifecycle_guards as [Hinit _].
  apply (Hinit [param_x] Plain [run_A] (vec 1 "n") (world_with_state "running")).
  reflexivity.
Defined.

(** ** C7: transitions out of a terminal state *)

(** C7 (as stated, refuted). [record_failure] on a record already in the
    terminal state [success] succeeds and rewrites its state to
    [failure]. *)
Lemma record_failure_rewrites_success :
  summary (world_with_state "success") !! state_key = Some (VStr "success") /\
  snd (record_failure (world_with_state "success")) = Ok tt /\
  summary (fst (record_failure (world_with_state "success"))) !! state_key =
    Some (VStr "failure").
Proof. vm_compute. repeat split. Qed.

(** C7 (amended). [record_failure] sets the state to [failure] from any
    state, terminal ones included; [record_observation] with
    [allow_update] sets it to [success] from any state, terminal ones
    included; only [record_observation] without the flag refuses a record
    that is not [running] (a terminal one in particular), changing
    nothing. *)
Theorem lifecycle_transitions (w : World) (objective cost : Value) :
  record_failure w =
    (set_summary (<[state_key := VStr "failure"]> (summary w)) w, Ok tt) /\
  snd (record_observation objective cost true w) = Ok tt /\
  summary (fst (record_observation objective cost true w)) !! state_key =
    Some (VStr "success") /\
  (summary w !! state_key = Some (VStr "success") \/
   summary w !! state_key = Some (VStr "failure") ->
   record_observation objective cost false w = (w, Err AssertionError)).
Proof.
  split; [| split; [| split]].
  - unfold record_failure, summary_update, modify.
    now rewrite <- insert_union_singleton_l.
  - reflexivity.
  - unfold record_observation, summary_update. unfold_m.
    cbn [fst snd summary set_summary].
    rewrite lookup_union, !lookup_insert_ne, lookup_singleton_eq by discriminate.
    destruct (summary w !! state_key); reflexivity.
  - intros Hst. unfold record_observation, getitem. unfold_m. simpl.
    destruct Hst as [Hst | Hst]; rewrite Hst; reflexivity.
Qed.

Lemma lifecycle_transitions_witness :
  summary (world_with_state "failure") !! state_key = Some (VStr "failure") /\
  record_observation (VInt 1) (VInt 1) false (world_with_state "failure") =
    (world_with_state "failure", Err AssertionError).
Proof.
  split; [reflexivity |].
  apply (lifecycle_transitions (world_with_state "failure") (VInt 1) (VInt 1)).
  right. reflexivity.
Defined.

(** ** C8: [suggest()] hands out fresh copies *)

(** The heap invariant after construction: the stored suggestion still
    holds [s0], and every dict handed out lives at a location other than
    the stored one. *)
Definition suggest_inv (s0 : dict) (o : Obj) : Prop :=
  heap o !! stored o = Some s0 /\
  (stored o < next_loc o)%nat /\
  Forall (fun l => (stored o < l)%nat) (returned o).

Lemma run_ops_from_inv (params : list Param) (codec : Codec) (s0 : dict)
    (ops : list Op) (o : Obj) :
  suggest_inv s0 o ->
  Forall (fun r => r = transform_suggestion params codec s0)
    (run_ops params codec o ops).
Proof.
  revert o. induction ops as [| op ops IH]; intros o (Hs & Hn & Hr); simpl;
    [constructor |].
  destruct op as [| i d].
  - unfold suggest. rewrite Hs. simpl. rewrite lookup_insert_eq. simpl.
    destruct (transform_suggestion params codec s0) as [t | e] eqn:Ht; simpl.
    + constructor; [rewrite lookup_insert_eq; reflexivity |].
      apply IH. unfold suggest_inv; simpl.
      split; [rewrite !lookup_insert_ne by lia; exact Hs |].
      split; [lia |]. apply Forall_app; split; [exact Hr | constructor; [lia | constructor]].
    + constructor; [reflexivity |].
      apply IH. unfold suggest_inv; simpl.
      split; [rewrite lookup_insert_ne by lia; exact Hs |]. split; [lia | exact Hr].
  - destruct (returned o !! i) as [l |] eqn:Hl; apply IH; [| split; auto].
    assert (Hlt : (stored o < l)%nat).
    { eapply (Forall_lookup_1 _ _ _ _ Hr Hl). }
    unfold suggest_inv; simpl.
    split; [rewrite lookup_insert_ne by lia; exact Hs |]. split; [lia | exact Hr].
Qed.

(** C8. After construction, whatever the caller does with the dicts it
    receives, every [suggest()] call returns a dict whose contents are
    [_transform_suggestion] of the stored suggestion as constructed: the
    results are all equal and mutating one of them affects no later
    result. *)
Theorem suggest_returns_fresh_copies (params : list Param) (codec : Codec)
    (s0 : dict) (ops : list Op) :
  Forall (fun r => r = transform_suggestion params codec s0)
    (run_ops params codec (after_init s0) ops).
Proof.
  apply run_ops_from_inv. unfold suggest_inv, after_init; simpl.
  split; [apply lookup_singleton_eq |]. split; [lia | constructor].
Qed.

(** ** C9: the [suggestion_uuid] key *)

Lemma config_comprehension_keys_acc (ps : list Param) (config acc : dict) (k : string) :
  is_Some (foldl (fun acc p => <[name p := get config (name p) (search_center p)]> acc)
             acc ps !! k) <-> is_Some (acc !! k) \/ In k (map name ps).
Proof.
  revert acc. induction ps as [| p ps IH]; intros acc; simpl; [tauto |].
  rewrite IH, lookup_insert_is_Some. destruct (decide (name p = k)); naive_solver.
Qed.

Lemma config_comprehension_keys (ps : list Param) (config : dict) (k : string) :
  is_Some (config_comprehension ps config !! k) <-> In k (map name ps).
Proof.
  unfold config_comprehension. rewrite config_comprehension_keys_acc.
  rewrite lookup_empty. split; [intros [[? ?] | ?]; [discriminate | auto] | auto].
Qed.

Lemma map_pow2_params_frame (c : Codec) (f : Value -> result Value)
    (ps : list Param) (s s' : dict) :
  map_pow2_params c f ps s = Ok s' ->
  (forall k, ~ In k (map name ps) -> s' !! k = s !! k) /\
  (forall k, is_Some (s' !! k) <-> is_Some (s !! k)).
Proof.
  revert s. induction ps as [| p ps IH]; intros s H; simpl in H.
  - inversion H; subst. split; [auto | tauto].
  - destruct (is_pow2 c (name p)).
    + unfold getitem in H. destruct (s !! name p) as [v |] eqn:Hv; simpl in H;
        [| discriminate].
      destruct (f v) as [v' |]; simpl in H; [| discriminate].
      destruct (IH _ H) as [H1 H2]. split.
      * intros k Hk. rewrite H1 by (simpl in Hk; tauto).
        rewrite lookup_insert_ne; [reflexivity |]. simpl in Hk. tauto.
      * intros k. rewrite H2, lookup_insert_is_Some.
        destruct (decide (name p = k)); [subst; rewrite Hv |]; naive_solver.
    + destruct (IH _ H) as [H1 H2]. split; [| exact H2].
      intros k Hk. apply H1. simpl in Hk. tauto.
Qed.

Lemma transform_frame (params : list Param) (codec : Codec) (s t : dict) :
  transform_suggestion params codec s = Ok t ->
  (forall k, ~ In k (map name params) -> t !! k = s !! k) /\
  (forall k, is_Some (t !! k) <-> is_Some (s !! k)).
Proof.
  unfold transform_suggestion. destruct codec.
  - intros H; inversion H; subst. split; [auto | tauto].
  - apply map_pow2_params_frame.
Qed.

Lemma update_calls_cases (params : list Param) (codec : Codec) (run : Run) (w : World) :
  exists new,
    calls (fst (update_carbs_from_run params codec run w)) = calls w ++ new /\
    (new = [] \/
     exists v, suggestion_from_run params codec run = Ok v /\
       (new = [Remember v (run_id run)] \/
        exists o c f, new = [Remember v (run_id run); Observe v o c f])).
Proof.
  unfold update_carbs_from_run, getitem. unfold_m.
  destruct (run_summary run !! state_key) as [st |]; simpl;
    [| exists []; rewrite app_nil_r; auto].
  destruct (py_eq_str st "initializing"); simpl;
    [exists []; rewrite app_nil_r; auto |].
  destruct (suggestion_from_run params codec run) as [v | e] eqn:Hs; simpl;
    [| exists []; rewrite app_nil_r; auto].
  destruct (py_eq_str st "running"); simpl.
  - exists [Remember v (run_id run)]. split; [reflexivity |]. right. eauto.
  - destruct (py_eq_str st "failure"); simpl.
    all: eexists; split; [rewrite <- app_assoc; reflexivity |].
    all: right; exists v; split; [reflexivity | right; eauto].
Qed.

Section Uuid.

Variable params : list Param.
Hypothesis uuid_not_param : ~ In uuid_key (map name params).

Lemma suggestion_from_run_uuid (codec : Codec) (run : Run) (v : dict) :
  suggestion_from_run params codec run = Ok v ->
  v !! uuid_key = Some (VStr (run_id run)) /\
  (forall k, is_Some (v !! k) <-> k = uuid_key \/ In k (map name params)).
Proof.
  unfold suggestion_from_run, base_suggestion_from_run.
  assert (Hb : forall k, is_Some ((<[uuid_key := VStr (run_id run)]>
                 (config_comprehension params (run_config run))) !! k) <->
               k = uuid_key \/ In k (map name params)).
  { intros k. rewrite lookup_insert_is_Some, config_comprehension_keys.
    destruct (decide (uuid_key = k)); naive_solver. }
  destruct codec; intros H.
  - inversion H; subst. split; [apply lookup_insert_eq | exact Hb].
  - destruct (map_pow2_params_frame _ _ _ _ _ H) as [H1 H2].
    split; [rewrite H1 by exact uuid_not_param; apply lookup_insert_eq |].
    intros k. rewrite H2. apply Hb.
Qed.

End Uuid.

Lemma first_suggest (params : list Param) (codec : Codec) (s : dict) :
  run_ops params codec (after_init s) [CallSuggest] =
    [transform_suggestion params codec s].
Proof.
  unfold run_ops, suggest, after_init. cbn [heap stored next_loc returned].
  rewrite lookup_singleton_eq. cbn [default].
  rewrite lookup_insert_eq. cbn [default]. unfold id.
  destruct (transform_suggestion params codec s); [| reflexivity].
  cbn [heap]. rewrite lookup_insert_eq. reflexivity.
Qed.

(** C9. When no registry parameter is itself named [suggestion_uuid], the
    vector reconstructed from a ledger record has exactly the registry
    parameters' keys plus [suggestion_uuid], bound to the record's id; that
    vector, key included, is what [remember_suggestion] and [observe]
    receive; the config the worker publishes for its own run lacks the key,
    while [suggest()] returns a dict that still has it. *)
Theorem reconstructed_vector_uuid (params : list Param) :
  ~ In uuid_key (map name params) ->
  (forall codec run v,
     suggestion_from_run params codec run = Ok v ->
     v !! uuid_key = Some (VStr (run_id run)) /\
     (forall k, is_Some (v !! k) <-> k = uuid_key \/ In k (map name params))) /\
  (forall codec run w,
     exists new,
       calls (fst (update_carbs_from_run params codec run w)) = calls w ++ new /\
       Forall (fun c => match c with
                        | Remember v id =>
                            id = run_id run /\ v !! uuid_key = Some (VStr (run_id run))
                        | Observe v _ _ _ => v !! uuid_key = Some (VStr (run_id run))
                        | _ => False
                        end) new) /\
  (forall codec sug wc,
     publish_config params codec sug = Ok wc ->
     wc !! uuid_key = None /\
     exists t, transform_suggestion params codec sug = Ok t /\
               t !! uuid_key = sug !! uuid_key /\ is_Some (sug !! uuid_key) /\
               run_ops params codec (after_init sug) [CallSuggest] = [Ok t]).
Proof.
  intros Hu. split; [| split].
  - intros codec run v. apply suggestion_from_run_uuid. exact Hu.
  - intros codec run w.
    destruct (update_calls_cases params codec run w) as (new & Hc & Hcases).
    exists new. split; [exact Hc |].
    destruct Hcases as [-> | (v & Hv & Hn)]; [constructor |].
    destruct (suggestion_from_run_uuid params Hu codec run v Hv) as [Hid _].
    destruct Hn as [-> | (o & c & f & ->)]; repeat constructor; auto.
  - intros codec sug wc. unfold publish_config.
    destruct (transform_suggestion params codec sug) as [t | e] eqn:Ht;
      cbn [rbind]; [| discriminate].
    destruct (t !! uuid_key) as [u |] eqn:Hut; intros H; inversion H; subst;
      clear H.
    destruct (transform_frame _ _ _ _ Ht) as [H1 H2].
    split; [apply lookup_delete_eq |].
    exists t. split; [reflexivity |]. split; [apply H1; exact Hu |].
    split; [apply H2; rewrite Hut; eauto |].
    rewrite first_suggest, Ht. reflexivity.
Qed.

Lemma reconstructed_vector_uuid_witness :
  ~ In uuid_key (map name [param_x]) /\
  ({[ "x" := VInt 3 ]} : dict) !! uuid_key = None.
Proof.
  assert (Hu : ~ In uuid_key (map name [param_x]))
    by (simpl; intros [H | []]; discriminate).
  split; [exact Hu |].
  destruct (reconstructed_vector_uuid [param_x] Hu) as (_ & _ & H3).
  apply (H3 Plain (vec 3 "w")). vm_compute. reflexivity.
Defined.

(** ** C10: spaces the translator does not know *)

Lemma sweep_parameters_frame (ps : list Param) (acc m : gmap string Entry) :
  sweep_parameters ps acc = Ok m ->
  forall k, ~ In k (map name ps) -> m !! k = acc !! k.
Proof.
  revert acc. induction ps as [| p ps IH]; intros acc H k Hk; simpl in H.
  - now inversion H.
  - destruct (attr (space_min (space p))); simpl in H; [| discriminate].
    destruct (attr (space_max (space p))); simpl in H; [| discriminate].
    rewrite (IH _ H k) by (simpl in Hk; tauto).
    apply lookup_insert_ne. simpl in Hk. tauto.
Qed.

Lemma sweep_parameters_entries (ps : list Param) (acc : gmap string Entry) :
  Forall (fun q => is_Some (space_min (space q)) /\ is_Some (space_max (space q))) ps ->
  NoDup (map name ps) ->
  exists m, sweep_parameters ps acc = Ok m /\
    forall q mn mx, In q ps -> space_min (space q) = Some mn ->
      space_max (space q) = Some mx ->
      m !! name q = Some {| e_min := mn; e_max := mx;
                             distribution := wandb_distribution q |}.
Proof.
  revert acc. induction ps as [| p ps IH]; intros acc Hattr Hnd.
  - exists acc. split; [reflexivity | intros ? ? ? []].
  - inversion Hattr as [| ? ? [[mn0 Hmn] [mx0 Hmx]] Hattr']; subst.
    inversion Hnd as [| ? ? Hnin Hnd']; subst.
    simpl. rewrite Hmn, Hmx. simpl.
    destruct (IH (<[name p := {| e_min := mn0; e_max := mx0;
                                  distribution := wandb_distribution p |}]> acc)
                 Hattr' Hnd') as (m & Hm & Hent).
    exists m. split; [exact Hm |].
    intros q mn mx [<- | Hq] Hq1 Hq2; [| now apply Hent].
    rewrite Hmn in Hq1. rewrite Hmx in Hq2. inversion Hq1. inversion Hq2. subst.
    rewrite (sweep_parameters_frame _ _ _ Hm)
      by (intros H; apply Hnin, list_elem_of_In, H).
    apply lookup_insert_eq.
Qed.

(** C10. A parameter whose space is none of [LogSpace], [LogitSpace],
    [LinearSpace] gets no distribution ([None]) rather than an error;
    when every parameter's space has [min] and [max] attributes and the
    names are distinct, the translation succeeds and that parameter's
    entry carries its [min], [max] and the distribution [None]. *)
Theorem other_space_no_distribution (p : Param) (nm : string) (ps : list Param) :
  kind (space p) = OtherSpace ->
  wandb_distribution p = None /\
  (In p ps -> NoDup (map name ps) ->
   Forall (fun q => is_Some (space_min (space q)) /\ is_Some (space_max (space q))) ps ->
   exists cfg mn mx,
     wandb_sweep_cfg_from_carbs_params nm ps = Ok cfg /\
     space_min (space p) = Some mn /\ space_max (space p) = Some mx /\
     parameters cfg !! name p = Some {| e_min := mn; e_max := mx; distribution := None |}).
Proof.
  intros Hk. assert (Hd : wandb_distribution p = None)
    by (unfold wandb_distribution; now rewrite Hk).
  split; [exact Hd |]. intros Hin Hnd Hattr.
  destruct (sweep_parameters_entries ps ∅ Hattr Hnd) as (m & Hm & Hent).
  pose proof (proj1 (Forall_forall _ _) Hattr p (proj2 (list_elem_of_In _ _) Hin)) as [[mn Hmn] [mx Hmx]].
  exists {| method := "bayes"; metric_goal := "maximize";
            metric_name := "eval_metric"; parameters := m; cfg_name := nm |}, mn, mx.
  unfold wandb_sweep_cfg_from_carbs_params. rewrite Hm.
  repeat split; auto. simpl. rewrite <- Hd. now apply Hent.
Qed.

Definition other_space : Space :=
  {| kind := OtherSpace; space_min := Some (VInt 0); space_max := Some (VInt 1);
     is_integer := false |}.
Definition param_o : Param :=
  {| name := "o"; space := other_space; search_center := VInt 0 |}.

Lemma other_space_no_distribution_witness :
  wandb_distribution param_o = None /\
  exists cfg mn mx,
     wandb_sweep_cfg_from_carbs_params "s" [param_x; param_o] = Ok cfg /\
     space_min (space param_o) = Some mn /\ space_max (space param_o) = Some mx /\
     parameters cfg !! name param_o =
       Some {| e_min := mn; e_max := mx; distribution := None |}.
Proof.
  destruct (other_space_no_distribution param_o "s" [param_x; param_o] eq_refl)
    as [Hd Hcfg].
  split; [exact Hd |]. apply Hcfg.
  - right. left. reflexivity.
  - apply (bool_decide_unpack _). vm_compute. reflexivity.
  - repeat constructor; simpl; eexists; reflexivity.
Defined.

(** ** Concrete runs *)

Example suggest_after_mutation :
  run_ops [param_x] Plain (after_init (vec 7 "s"))
    [CallSuggest; Mutate 0 {[ "x" := VInt 99 ]}; CallSuggest] =
  [Ok (vec 7 "s"); Ok (vec 7 "s")].
Proof. vm_compute. reflexivity. Qed.

Example scenario_C_no_observe :
  calls (fst (update_carbs_from_run [param_x] Plain run_C empty_world)) =
    [Remember (vec 8 "c") "c"].
Proof. vm_compute. reflexivity. Qed.

Example init_rejects_used_run :
  init [param_x] Plain [] (vec 1 "n") (world_with_state "running") =
    (push_call SetSeed (world_with_state "running"), Err AssertionError).
Proof. vm_compute. reflexivity. Qed.

Example init_publishes_config :
  summary (fst (init [param_x] Plain [run_A; run_C] (vec 1 "n") empty_world))
    !! state_key = Some (VStr "running") /\
  config (fst (init [param_x] Plain [run_A; run_C] (vec 1 "n") empty_world)) =
    {[ "x" := VInt 1 ]}.
Proof. vm_compute. split; reflexivity. Qed.

(* ------------------------------------------------------------------ *)
(** * Further properties of the code *)

(** ** The replay loop [_load_runs] *)

(** The lifecycle state a ledger record carries, tested against [s]. *)
Definition run_in_state (s : string) (r : Run) : bool :=
  match run_summary r !! state_key with Some v => py_eq_str v s | None => false end.

(** A record that [_update_carbs_from_run] observes as a success: it has
    a state that is none of [initializing], [running], [failure]. *)
Definition run_counted_success (r : Run) : bool :=
  match run_summary r !! state_key with
  | Some v => negb (py_eq_str v "initializing" || py_eq_str v "running" ||
                    py_eq_str v "failure")
  | None => false
  end.

Lemma update_carbs_from_run_effect (params : list Param) (codec : Codec)
    (run : Run) (w : World) :
  summary (fst (update_carbs_from_run params codec run w)) = summary w /\
  config (fst (update_carbs_from_run params codec run w)) = config w /\
  (snd (update_carbs_from_run params codec run w) = Ok tt ->
   num_failures (fst (update_carbs_from_run params codec run w)) =
     num_failures w + (if run_in_state "failure" run then 1 else 0) /\
   num_observations (fst (update_carbs_from_run params codec run w)) =
     num_observations w + (if run_counted_success run then 1 else 0)).
Proof.
  unfold update_carbs_from_run, getitem, run_in_state, run_counted_success. unfold_m.
  destruct (run_summary run !! state_key) as [st |]; simpl;
    [| repeat split; discriminate].
  destruct (py_eq_str st "initializing") eqn:Hi; simpl.
  { split; [reflexivity |]. split; [reflexivity |]. intros _.
    assert (Hf : py_eq_str st "failure" = false).
    { apply py_eq_str_spec in Hi. now subst. }
    rewrite Hf. simpl. split; lia. }
  destruct (suggestion_from_run params codec run); simpl;
    [| repeat split; discriminate].
  destruct (py_eq_str st "running") eqn:Hr; simpl.
  { split; [reflexivity |]. split; [reflexivity |]. intros _.
    assert (Hf : py_eq_str st "failure" = false).
    { apply py_eq_str_spec in Hr. now subst. }
    rewrite Hf. simpl. split; lia. }
  destruct (py_eq_str st "failure"); simpl; repeat split; auto; lia.
Qed.

(** X1. After a replay pass that raises nothing, [_num_failures] grew by
    the number of [failure] records and [_num_observations] by the number
    of the other resolved records (a state that is none of
    [initializing], [running], [failure]). *)
Theorem load_runs_counts (params : list Param) (codec : Codec)
    (runs : list Run) (w : World) :
  snd (load_runs params codec runs w) = Ok tt ->
  num_failures (fst (load_runs params codec runs w)) =
    num_failures w + Z.of_nat (length (List.filter (run_in_state "failure") runs)) /\
  num_observations (fst (load_runs params codec runs w)) =
    num_observations w + Z.of_nat (length (List.filter run_counted_success runs)).
Proof.
  revert w. induction runs as [| r rs IH]; intros w H; simpl in H |- *;
    [split; lia |].
  unfold mbind in H |- *.
  pose proof (update_carbs_from_run_effect params codec r w) as (_ & _ & Hc).
  destruct (update_carbs_from_run params codec r w) as [w1 res].
  destruct res as [u | e]; [destruct u | simpl in H; discriminate].
  simpl in Hc. destruct (Hc eq_refl) as [Hf Ho].
  destruct (IH w1 H) as [Hf' Ho']. rewrite Hf', Ho', Hf, Ho.
  cbn [List.filter].
  destruct (run_in_state "failure" r), (run_counted_success r);
    cbn [length]; rewrite ?Nat2Z.inj_succ; lia.
Qed.

Lemma load_runs_counts_witness :
  snd (load_runs [param_x] Plain [run_A; run_B; run_C] empty_world) = Ok tt /\
  num_failures (fst (load_runs [param_x] Plain [run_A; run_B; run_C] empty_world)) = 1.
Proof.
  assert (H : snd (load_runs [param_x] Plain [run_A; run_B; run_C] empty_world) = Ok tt)
    by (vm_compute; reflexivity).
  split; [exact H |].
  rewrite (proj1 (load_runs_counts [param_x] Plain [run_A; run_B; run_C] empty_world H)).
  vm_compute. reflexivity.
Defined.

Lemma load_runs_frame (params : list Param) (codec : Codec)
    (runs : list Run) (w : World) :
  summary (fst (load_runs params codec runs w)) = summary w /\
  config (fst (load_runs params codec runs w)) = config w.
Proof.
  revert w. induction runs as [| r rs IH]; intros w; simpl; [auto |].
  unfold mbind.
  pose proof (update_carbs_from_run_effect params codec r w) as (Hs & Hc & _).
  destruct (update_carbs_from_run params codec r w) as [w1 res].
  cbn [fst snd] in Hs, Hc.
  destruct res as [u | e]; [destruct u | cbn [fst]; auto].
  destruct (IH w1) as [Hs' Hc']. split; congruence.
Qed.

(** X2. A replay pass never writes the worker's own run: its summary and
    config are the same after [_load_runs], whether it succeeded or
    raised. *)
Theorem load_runs_preserves_own_run (params : list Param) (codec : Codec)
    (runs : list Run) (w : World) :
  summary (fst (load_runs params codec runs w)) = summary w /\
  config (fst (load_runs params codec runs w)) = config w.
Proof. apply load_runs_frame. Qed.

(** X3. Records in state [initializing] take no part in the replay:
    removing them from the ledger snapshot gives the same final world and
    result. *)
Theorem load_runs_skips_initializing (params : list Param) (codec : Codec)
    (runs : list Run) (w : World) :
  load_runs params codec (List.filter (fun r => negb (run_in_state "initializing" r)) runs) w =
  load_runs params codec runs w.
Proof.
  revert w. induction runs as [| r rs IH]; intros w; [reflexivity |].
  cbn [List.filter]. destruct (run_in_state "initializing" r) eqn:Hi; cbn [negb].
  - rewrite IH. cbn [load_runs]. unfold mbind at 1.
    assert (Hu : update_carbs_from_run params codec r w = (w, Ok tt)).
    { unfold run_in_state in Hi. unfold update_carbs_from_run, getitem. unfold_m.
      destruct (run_summary r !! state_key); [| discriminate]. simpl. now rewrite Hi. }
    now rewrite Hu.
  - cbn [load_runs]. unfold mbind.
    destruct (update_carbs_from_run params codec r w) as [w1 [u | e]];
      [destruct u; apply IH | reflexivity].
Qed.

(** ** Construction and the lifecycle *)

Lemma update_calls_prefix (params : list Param) (codec : Codec) (run : Run) (w : World) :
  exists new, calls (fst (update_carbs_from_run params codec run w)) = calls w ++ new.
Proof.
  destruct (update_calls_cases params codec run w) as (new & H & _). eauto.
Qed.

Lemma load_runs_calls_prefix (params : list Param) (codec : Codec)
    (runs : list Run) (w : World) :
  exists replay, calls (fst (load_runs params codec runs w)) = calls w ++ replay.
Proof.
  revert w. induction runs as [| r rs IH]; intros w; simpl.
  - exists []. now rewrite app_nil_r.
  - unfold mbind.
    destruct (update_calls_prefix params codec r w) as [n1 H1].
    destruct (update_carbs_from_run params codec r w) as [w1 [u | e]];
      cbn [fst] in H1 |- *; [| eauto].
    destruct (IH w1) as [n2 H2]. exists (n1 ++ n2).
    now rewrite H2, H1, app_assoc.
Qed.

Lemma init_unfold (params : list Param) (codec : Codec) (runs : list Run)
    (sug : dict) (w : World) :
  is_none (summary w !! state_key) = true ->
  let w1 := set_summary (<[state_key := VStr "initializing"]> (summary w))
              (push_call SetSeed w) in
  init params codec runs sug w =
    match load_runs params codec runs w1 with
    | (w2, Ok _) =>
        match publish_config params codec sug with
        | Ok wc =>
            let w3 := set_config (wc ∪ config w2) (push_call SuggestCall w2) in
            (set_summary (<[state_key := VStr "running"]> (summary w3)) w3, Ok sug)
        | Err e => (push_call SuggestCall w2, Err e)
        end
    | (w2, Err e) => (w2, Err e)
    end.
Proof.
  intros Hn w1. unfold init, summary_update. unfold_m. cbn [fst snd].
  cbn [summary push_call]. rewrite Hn. cbn [negb].
  rewrite <- insert_union_singleton_l.
  change (summary (push_call SetSeed w)) with (summary w). fold w1.
  destruct (load_runs params codec runs w1) as [w2 [u | e]]; [| reflexivity].
  destruct (publish_config params codec sug) as [wc | e]; [| reflexivity].
  rewrite <- insert_union_singleton_l. reflexivity.
Qed.

(** X4. A construction that raises nothing stores the optimizer's
    suggestion unchanged, leaves the own summary with [carbs.state] set to
    [running] (every other summary key as before), merges the published
    config over the old one, and calls the optimizer in the order
    [_set_seed], the replay of the records, one [suggest]. *)
Theorem init_success (params : list Param) (codec : Codec) (runs : list Run)
    (sug : dict) (w w' : World) (s : dict) :
  init params codec runs sug w = (w', Ok s) ->
  s = sug /\
  summary w' = <[state_key := VStr "running"]> (summary w) /\
  (exists wc, publish_config params codec sug = Ok wc /\ config w' = wc ∪ config w) /\
  (exists replay, calls w' = calls w ++ [SetSeed] ++ replay ++ [SuggestCall] /\
     exists wr, load_runs params codec runs
                  (set_summary (<[state_key := VStr "initializing"]> (summary w))
                     (push_call SetSeed w)) = (wr, Ok tt) /\
                calls wr = calls w ++ [SetSeed] ++ replay).
Proof.
  intros H.
  destruct (is_none (summary w !! state_key)) eqn:Hn;
    [| unfold init in H; unfold_m; cbn in H; rewrite Hn in H; discriminate].
  rewrite (init_unfold params codec runs sug w Hn) in H.
  set (w1 := set_summary _ _) in H.
  pose proof (load_runs_frame params codec runs w1) as [Hs Hc].
  pose proof (load_runs_calls_prefix params codec runs w1) as [replay Hr].
  destruct (load_runs params codec runs w1) as [w2 [[] | e]] eqn:Hl;
    [| discriminate].
  destruct (publish_config params codec sug) as [wc |]; [| discriminate].
  inversion H; subst. clear H. cbn [fst] in Hs, Hc, Hr.
  split; [reflexivity |]. split.
  { cbn. rewrite Hs. unfold w1. cbn. apply insert_insert_eq. }
  split; [exists wc; split; [reflexivity | cbn; now rewrite Hc] |].
  exists replay. split.
  - cbn. rewrite Hr. unfold w1. cbn. now rewrite <- !app_assoc.
  - exists w2. split; [exact Hl |]. rewrite Hr. unfold w1. cbn.
    now rewrite <- app_assoc.
Qed.

Lemma init_success_witness :
  init [param_x] Plain [run_A; run_C] (vec 1 "n") empty_world =
    (fst (init [param_x] Plain [run_A; run_C] (vec 1 "n") empty_world), Ok (vec 1 "n")) /\
  summary (fst (init [param_x] Plain [run_A; run_C] (vec 1 "n") empty_world)) =
    <[state_key := VStr "running"]> (summary empty_world).
Proof.
  assert (H : init [param_x] Plain [run_A; run_C] (vec 1 "n") empty_world =
    (fst (init [param_x] Plain [run_A; run_C] (vec 1 "n") empty_world), Ok (vec 1 "n")))
    by (vm_compute; reflexivity).
  split; [exact H |].
  exact (proj1 (proj2 (init_success _ _ _ _ _ _ _ H))).
Defined.

(** X5. When construction gets past its precondition but the replay or
    the publication of the config raises, the own run is left in state
    [initializing] (every other summary key as before): later
    reconcilers then skip it. *)
Theorem init_failure_leaves_initializing (params : list Param) (codec : Codec)
    (runs : list Run) (sug : dict) (w : World) (e : Exc) :
  is_none (summary w !! state_key) = true ->
  snd (init params codec runs sug w) = Err e ->
  summary (fst (init params codec runs sug w)) =
    <[state_key := VStr "initializing"]> (summary w).
Proof.
  intros Hn H. rewrite (init_unfold params codec runs sug w Hn) in H |- *.
  set (w1 := set_summary _ _) in H |- *.
  pose proof (load_runs_frame params codec runs w1) as [Hs _].
  destruct (load_runs params codec runs w1) as [w2 [[] | e']]; cbn [fst] in Hs |- *.
  - destruct (publish_config params codec sug); [discriminate |].
    cbn. now rewrite Hs.
  - now rewrite Hs.
Qed.

(** A pow2 parameter missing from the optimizer's suggestion makes the
    publication raise [KeyError]. *)
Definition codec_n : Codec := Pow2 libm0 ["x"].

Lemma init_failure_leaves_initializing_witness :
  is_none (summary empty_world !! state_key) = true /\
  snd (init [param_x] codec_n [] {[ uuid_key := VStr "n" ]} empty_world) =
    Err (KeyError "x") /\
  summary (fst (init [param_x] codec_n [] {[ uuid_key := VStr "n" ]} empty_world)) =
    <[state_key := VStr "initializing"]> ∅.
Proof.
  assert (Hn : is_none (summary empty_world !! state_key) = true) by reflexivity.
  assert (He : snd (init [param_x] codec_n [] {[ uuid_key := VStr "n" ]} empty_world) =
               Err (KeyError "x")) by (vm_compute; reflexivity).
  split; [exact Hn |]. split; [exact He |].
  exact (init_failure_leaves_initializing _ _ _ _ _ _ Hn He).
Defined.

Lemma record_observation_summary (objective cost : Value) (au : bool) (w : World) :
  snd (record_observation objective cost au w) = Ok tt ->
  summary (fst (record_observation objective cost au w)) =
    <["carbs.objective" := objective]> (<["carbs.cost" := cost]>
      (<[state_key := VStr "success"]> (summary w))).
Proof.
  unfold record_observation, summary_update, getitem. unfold_m.
  assert (Hu : forall d : dict,
     (<["carbs.objective" := objective]> (<["carbs.cost" := cost]>
        {[state_key := VStr "success"]})) ∪ d =
     <["carbs.objective" := objective]> (<["carbs.cost" := cost]>
        (<[state_key := VStr "success"]> d))).
  { intros d. rewrite <- !insert_union_l. f_equal. f_equal.
    symmetry. apply insert_union_singleton_l. }
  destruct au; cbn [fst snd]; [intros _; apply Hu |].
  destruct (summary w !! state_key) as [st |]; cbn; [| discriminate].
  destruct (py_eq_str st "running"); cbn; [intros _; apply Hu | discriminate].
Qed.

(** X6. After a construction that raised nothing, [record_observation]
    without [allow_update] succeeds, and records the objective, the cost
    and the state [success] in the own summary. *)
Theorem init_then_record_observation (params : list Param) (codec : Codec)
    (runs : list Run) (sug : dict) (w w' : World) (s : dict) (objective cost : Value) :
  init params codec runs sug w = (w', Ok s) ->
  snd (record_observation objective cost false w') = Ok tt /\
  summary (fst (record_observation objective cost false w')) !! "carbs.objective" =
    Some objective /\
  summary (fst (record_observation objective cost false w')) !! "carbs.cost" = Some cost /\
  summary (fst (record_observation objective cost false w')) !! state_key =
    Some (VStr "success").
Proof.
  intros H.
  assert (Hst : summary w' !! state_key = Some (VStr "running")).
  { destruct (is_none (summary w !! state_key)) eqn:Hn;
      [| unfold init in H; unfold_m; cbn in H; rewrite Hn in H; discriminate].
    rewrite (init_unfold params codec runs sug w Hn) in H.
    set (w1 := set_summary _ _) in H.
    destruct (load_runs params codec runs w1) as [w2 [[] | e]]; [| discriminate].
    destruct (publish_config params codec sug) as [wc |]; [| discriminate].
    inversion H; subst. cbn. apply lookup_insert_eq. }
  assert (Hok : snd (record_observation objective cost false w') = Ok tt).
  { unfold record_observation, getitem. unfold_m. cbn. rewrite Hst. reflexivity. }
  split; [exact Hok |].
  rewrite (record_observation_summary _ _ _ _ Hok).
  split; [apply lookup_insert_eq |].
  split; [rewrite lookup_insert_ne by discriminate; apply lookup_insert_eq |].
  rewrite !lookup_insert_ne by discriminate. apply lookup_insert_eq.
Qed.

Lemma init_then_record_observation_witness :
  init [param_x] Plain [run_A] (vec 1 "n") empty_world =
    (fst (init [param_x] Plain [run_A] (vec 1 "n") empty_world), Ok (vec 1 "n")) /\
  snd (record_observation (VInt 3) (VInt 1) false
         (fst (init [param_x] Plain [run_A] (vec 1 "n") empty_world))) = Ok tt.
Proof.
  assert (H : init [param_x] Plain [run_A] (vec 1 "n") empty_world =
    (fst (init [param_x] Plain [run_A] (vec 1 "n") empty_world), Ok (vec 1 "n")))
    by (vm_compute; reflexivity).
  split; [exact H |].
  exact (proj1 (init_then_record_observation _ _ _ _ _ _ _ (VInt 3) (VInt 1) H)).
Defined.

Lemma update_resolved_calls (params : list Param) (codec : Codec) (run : Run)
    (w : World) (st : string) :
  st <> "initializing" -> st <> "running" ->
  run_summary run !! state_key = Some (VStr st) ->
  calls (fst (update_carbs_from_run params codec run w)) =
    calls w ++ match suggestion_from_run params codec run with
               | Ok v => [Remember v (run_id run);
                          Observe v (get (run_summary run) "carbs.objective" (VInt 0))
                                    (get (run_summary run) "carbs.cost" (VInt 0))
                                    (String.eqb st "failure")]
               | Err _ => []
               end.
Proof.
  intros Hi Hr Hst. unfold update_carbs_from_run, getitem. unfold_m.
  rewrite Hst. cbn [rbind fst snd py_eq_str].
  apply String.eqb_neq in Hi, Hr. rewrite Hi.
  destruct (suggestion_from_run params codec run); cbn; [| now rewrite app_nil_r].
  rewrite Hr. destruct (String.eqb st "failure"); cbn; now rewrite <- app_assoc.
Qed.

(** X7. What a worker records is what later workers replay: a record
    whose summary was last written by a successful [record_observation]
    is replayed as [remember_suggestion] then [observe] with that
    objective and cost and [is_failure = False]; one last written by
    [record_failure] is replayed with [is_failure = True] and the
    objective and cost the summary held before (0 when absent). *)
Theorem recorded_outcome_replayed (params : list Param) (codec : Codec)
    (id : string) (cfg : dict) (objective cost : Value) (au : bool) (w w2 : World) :
  (snd (record_observation objective cost au w) = Ok tt ->
   let r := {| run_id := id; run_config := cfg;
               run_summary := summary (fst (record_observation objective cost au w)) |} in
   calls (fst (update_carbs_from_run params codec r w2)) =
     calls w2 ++ match suggestion_from_run params codec r with
                 | Ok v => [Remember v id; Observe v objective cost false]
                 | Err _ => []
                 end) /\
  (let r := {| run_id := id; run_config := cfg;
               run_summary := summary (fst (record_failure w)) |} in
   calls (fst (update_carbs_from_run params codec r w2)) =
     calls w2 ++ match suggestion_from_run params codec r with
                 | Ok v => [Remember v id;
                            Observe v (get (summary w) "carbs.objective" (VInt 0))
                                      (get (summary w) "carbs.cost" (VInt 0)) true]
                 | Err _ => []
                 end).
Proof.
  split.
  - intros Hok r.
    pose proof (record_observation_summary _ _ _ _ Hok) as Hs.
    rewrite (update_resolved_calls params codec r w2 "success");
      [| discriminate | discriminate |].
    2: { cbn [run_summary r]. rewrite Hs, !lookup_insert_ne by discriminate.
         apply lookup_insert_eq. }
    destruct (suggestion_from_run params codec r); [| reflexivity].
    unfold get. cbn [run_summary r]. rewrite Hs.
    rewrite lookup_insert_eq, lookup_insert_ne, lookup_insert_eq by discriminate.
    reflexivity.
  - intros r.
    assert (Hs : summary (fst (record_failure w)) =
                 <[state_key := VStr "failure"]> (summary w)).
    { unfold record_failure, summary_update, modify. cbn [fst summary set_summary].
      symmetry. apply insert_union_singleton_l. }
    rewrite (update_resolved_calls params codec r w2 "failure");
      [| discriminate | discriminate |].
    2: { cbn [run_summary r]. rewrite Hs. apply lookup_insert_eq. }
    destruct (suggestion_from_run params codec r); [| reflexivity].
    unfold get. cbn [run_summary r]. rewrite Hs.
    rewrite !lookup_insert_ne by discriminate. reflexivity.
Qed.

Lemma recorded_outcome_replayed_witness :
  snd (record_observation (VInt 7) (VInt 2) false (world_with_state "running")) = Ok tt /\
  calls (fst (update_carbs_from_run [param_x] Plain
     {| run_id := "r"; run_config := {[ "x" := VInt 4 ]};
        run_summary := summary (fst (record_observation (VInt 7) (VInt 2) false
                                      (world_with_state "running"))) |} empty_world)) =
    [Remember (vec 4 "r") "r"; Observe (vec 4 "r") (VInt 7) (VInt 2) false].
Proof.
  assert (Hok : snd (record_observation (VInt 7) (VInt 2) false (world_with_state "running"))
                = Ok tt) by reflexivity.
  split; [exact Hok |].
  rewrite (proj1 (recorded_outcome_replayed [param_x] Plain "r" {[ "x" := VInt 4 ]}
                    (VInt 7) (VInt 2) false (world_with_state "running") empty_world) Hok).
  vm_compute. reflexivity.
Defined.

(** ** The codec end to end *)

Lemma nodup_cons_names (p : Param) (ps : list Param) :
  NoDup (map name (p :: ps)) -> ~ In (name p) (map name ps) /\ NoDup (map name ps).
Proof.
  intros H. inversion H as [| ? ? Hn Hnd]; subst.
  split; [intros Hin; apply Hn, list_elem_of_In, Hin | exact Hnd].
Qed.

Lemma map_pow2_params_pointwise (c : Codec) (f : Value -> result Value)
    (ps : list Param) (s : dict) :
  NoDup (map name ps) ->
  (forall p, In p ps -> is_pow2 c (name p) = true ->
     exists v v', s !! name p = Some v /\ f v = Ok v') ->
  exists s', map_pow2_params c f ps s = Ok s' /\
    (forall k, ~ (In k (map name ps) /\ is_pow2 c k = true) -> s' !! k = s !! k) /\
    (forall p, In p ps -> is_pow2 c (name p) = true ->
       exists v v', s !! name p = Some v /\ f v = Ok v' /\ s' !! name p = Some v').
Proof.
  revert s. induction ps as [| p ps IH]; intros s Hnd Hpre.
  - exists s. split; [reflexivity |]. split; [auto | intros ? []].
  - destruct (nodup_cons_names p ps Hnd) as [Hnin Hnd'].
    cbn [map_pow2_params].
    destruct (is_pow2 c (name p)) eqn:Hp.
    + destruct (Hpre p (or_introl eq_refl) Hp) as (v & v' & Hv & Hf).
      unfold getitem. rewrite Hv. cbn [rbind]. rewrite Hf. cbn [rbind].
      destruct (IH (<[name p := v']> s) Hnd') as (s' & Hs' & Hfr & Hpt).
      { intros q Hq Hq2.
        destruct (Hpre q (or_intror Hq) Hq2) as (u & u' & Hu & Hfu).
        exists u, u'. split; [| exact Hfu].
        rewrite lookup_insert_ne; [exact Hu |].
        intros Heq. apply Hnin. rewrite Heq. apply in_map, Hq. }
      exists s'. split; [exact Hs' |]. split.
      * intros k Hk. rewrite Hfr by (intros [H1 H2]; apply Hk; split; [right |]; auto).
        apply lookup_insert_ne. intros <-. apply Hk. split; [left |]; auto.
      * intros q [<- | Hq] Hq2.
        -- exists v, v'. split; [exact Hv |]. split; [exact Hf |].
           rewrite Hfr by tauto. apply lookup_insert_eq.
        -- destruct (Hpt q Hq Hq2) as (u & u' & Hu & Hfu & Hs'u).
           exists u, u'. split; [| tauto].
           rewrite lookup_insert_ne in Hu; [exact Hu |].
           intros Heq. apply Hnin. rewrite Heq. apply in_map, Hq.
    + destruct (IH s Hnd') as (s' & Hs' & Hfr & Hpt).
      { intros q Hq Hq2. apply Hpre; [right |]; auto. }
      exists s'. split; [exact Hs' |]. split.
      * intros k Hk. apply Hfr. intros [H1 H2]. apply Hk. split; [right |]; auto.
      * intros q [<- | Hq] Hq2; [congruence | auto].
Qed.

Lemma map_pow2_params_plain (f : Value -> result Value) (ps : list Param) (s : dict) :
  map_pow2_params Plain f ps s = Ok s.
Proof. induction ps; simpl; auto. Qed.

(** The platform a codec runs on (irrelevant for [Plain]). *)
Definition codec_libm (c : Codec) : Libm :=
  match c with Plain => libm0 | Pow2 lm _ => lm end.

Lemma transform_as_map (params : list Param) (c : Codec) (s : dict) :
  transform_suggestion params c s = map_pow2_params c (py_pow2 (codec_libm c)) params s.
Proof. destruct c; [symmetry; apply map_pow2_params_plain | reflexivity]. Qed.

Lemma suggestion_from_run_as_map (params : list Param) (c : Codec) (run : Run) :
  suggestion_from_run params c run =
    map_pow2_params c (py_int_log2 (codec_libm c)) params (base_suggestion_from_run params run).
Proof. destruct c; [symmetry; apply map_pow2_params_plain | reflexivity]. Qed.

Lemma pow2_int_decode (lm : Libm) (k : Z) : -1074 <= k < 2 ^ 52 ->
  exists v', py_pow2 lm (VInt k) = Ok v' /\ py_int_log2 lm v' = Ok (VInt k).
Proof.
  intros Hk. pose proof (pow2_int_roundtrip lm k Hk) as H.
  destruct (py_pow2 lm (VInt k)) as [v' | e]; [eauto | discriminate].
Qed.

Lemma comprehension_frame (ps : list Param) (cfg acc : dict) (k : string) :
  ~ In k (map name ps) ->
  foldl (fun acc p => <[name p := get cfg (name p) (search_center p)]> acc) acc ps !! k =
  acc !! k.
Proof.
  revert acc. induction ps as [| q ps IH]; intros acc Hk; [reflexivity |].
  cbn [foldl]. rewrite IH by (intros H; apply Hk; right; exact H).
  apply lookup_insert_ne. intros Heq. apply Hk. left. exact Heq.
Qed.

Lemma comprehension_lookup (ps : list Param) (cfg acc : dict) (p : Param) :
  NoDup (map name ps) -> In p ps ->
  foldl (fun acc p => <[name p := get cfg (name p) (search_center p)]> acc) acc ps
    !! name p = Some (get cfg (name p) (search_center p)).
Proof.
  revert acc. induction ps as [| q ps IH]; intros acc Hnd Hin; [destruct Hin |].
  destruct (nodup_cons_names q ps Hnd) as [Hnin Hnd'].
  cbn [foldl]. destruct Hin as [<- | Hin].
  - rewrite comprehension_frame by exact Hnin. apply lookup_insert_eq.
  - now apply IH.
Qed.

(** X8. The config a worker publishes lets every later reconciler
    rebuild its suggestion exactly. Take an optimizer suggestion whose keys
    are the registry parameters (with distinct names, none named
    [suggestion_uuid]) plus [suggestion_uuid], and whose power-of-two
    parameters hold integers [k] with [-1074 <= k < 2 ** 52] (the range in
    which C4's round trip holds). Publication succeeds, and reconstructing
    from a ledger record whose config is the published one merged over
    any earlier config gives back the suggestion, with [suggestion_uuid]
    now the record's id. *)
Theorem publish_then_reconstruct (params : list Param) (codec : Codec)
    (s old : dict) (id : string) (su : dict) :
  NoDup (map name params) ->
  ~ In uuid_key (map name params) ->
  (forall k, is_Some (s !! k) <-> k = uuid_key \/ In k (map name params)) ->
  (forall p, In p params -> is_pow2 codec (name p) = true ->
     exists k, s !! name p = Some (VInt k) /\ -1074 <= k < 2 ^ 52) ->
  exists wc, publish_config params codec s = Ok wc /\
    suggestion_from_run params codec
      {| run_id := id; run_config := wc ∪ old; run_summary := su |} =
    Ok (<[uuid_key := VStr id]> s).
Proof.
  intros Hnd Hu Hkeys Hint.
  assert (Hnp : forall p, In p params -> uuid_key <> name p)
    by (intros p Hp Heq; apply Hu; rewrite Heq; now apply in_map).
  destruct (map_pow2_params_pointwise codec (py_pow2 (codec_libm codec)) params s Hnd) as (t & Ht & Hfr & Hpt).
  { intros p Hp Hp2. destruct (Hint p Hp Hp2) as (k & Hk & Hkr).
    destruct (pow2_int_decode (codec_libm codec) k Hkr) as (v' & Hv' & _). eauto. }
  assert (Htu : t !! uuid_key = s !! uuid_key) by (apply Hfr; tauto).
  assert (Htk : forall k, is_Some (t !! k) <-> is_Some (s !! k)).
  { intros k. rewrite <- transform_as_map in Ht. apply (transform_frame _ _ _ _ Ht). }
  destruct (proj2 (Hkeys uuid_key) (or_introl eq_refl)) as [u Hsu].
  exists (delete uuid_key t). split.
  { unfold publish_config. rewrite transform_as_map, Ht. cbn [rbind].
    rewrite Htu, Hsu. reflexivity. }
  set (cfg := delete uuid_key t ∪ old).
  assert (Hcfg : forall p, In p params -> exists x, t !! name p = Some x /\
                   get cfg (name p) (search_center p) = x).
  { intros p Hp.
    assert (Hne : uuid_key <> name p) by auto.
    destruct (proj2 (Htk (name p)) (proj2 (Hkeys (name p)) (or_intror (in_map _ _ _ Hp))))
      as [x Hx].
    exists x. split; [exact Hx |]. unfold get, cfg.
    rewrite (lookup_union_Some_l _ _ _ x); [reflexivity |].
    rewrite lookup_delete_ne by auto. exact Hx. }
  set (base := base_suggestion_from_run params
                 {| run_id := id; run_config := cfg; run_summary := su |}).
  assert (Hbase : forall p, In p params -> exists x, t !! name p = Some x /\ base !! name p = Some x).
  { intros p Hp. destruct (Hcfg p Hp) as (x & Hx & Hg). exists x. split; [exact Hx |].
    unfold base, base_suggestion_from_run. cbn [run_config run_id].
    rewrite lookup_insert_ne by (apply Hnp, Hp).
    unfold config_comprehension. rewrite comprehension_lookup by auto. now rewrite Hg. }
  destruct (map_pow2_params_pointwise codec (py_int_log2 (codec_libm codec)) params base Hnd)
    as (s2 & Hs2 & Hfr2 & Hpt2).
  { intros p Hp Hp2. destruct (Hbase p Hp) as (x & Hx & Hbx).
    destruct (Hpt p Hp Hp2) as (v0 & v1 & Hv0 & Hv1 & Htv1).
    destruct (Hint p Hp Hp2) as (k & Hk & Hkr). rewrite Hk in Hv0. inversion Hv0; subst.
    destruct (pow2_int_decode (codec_libm codec) k Hkr) as (v' & Hv' & Hd). rewrite Hv' in Hv1. inversion Hv1; subst.
    rewrite Htv1 in Hx. inversion Hx; subst. eauto. }
  rewrite suggestion_from_run_as_map. fold base. rewrite Hs2. f_equal.
  apply map_eq. intros k.
  assert (Hcase : (In k (map name params) /\ is_pow2 codec k = true) \/
                  ~ (In k (map name params) /\ is_pow2 codec k = true)).
  { destruct (in_dec String.string_dec k (map name params)), (is_pow2 codec k);
      [left; auto | right; intros [_ H]; discriminate | right; tauto | right; tauto]. }
  destruct Hcase as [[Hin Hk2] | Hnot].
  - apply in_map_iff in Hin as (p & <- & Hp).
    destruct (Hpt2 p Hp Hk2) as (b & b' & Hb & Hdb & Hs2b).
    destruct (Hbase p Hp) as (x & Hx & Hbx). rewrite Hbx in Hb. inversion Hb; subst.
    destruct (Hpt p Hp Hk2) as (v0 & v1 & Hv0 & Hv1 & Htv1).
    destruct (Hint p Hp Hk2) as (kk & Hkk & Hkr). rewrite Hkk in Hv0. inversion Hv0; subst.
    destruct (pow2_int_decode (codec_libm codec) kk Hkr) as (v' & Hv' & Hd). rewrite Hv' in Hv1. inversion Hv1; subst.
    rewrite Htv1 in Hx. inversion Hx; subst. rewrite Hd in Hdb. inversion Hdb; subst.
    rewrite Hs2b, lookup_insert_ne by (apply Hnp, Hp).
    now rewrite Hkk.
  - rewrite (Hfr2 k Hnot).
    destruct (decide (k = uuid_key)) as [-> | Hne].
    + unfold base, base_suggestion_from_run. now rewrite !lookup_insert_eq.
    + rewrite lookup_insert_ne by auto.
      unfold base, base_suggestion_from_run. cbn [run_config run_id].
      rewrite lookup_insert_ne by auto. unfold config_comprehension.
      destruct (in_dec String.string_dec k (map name params)) as [Hin | Hnin].
      * apply in_map_iff in Hin as (p & <- & Hp).
        rewrite comprehension_lookup by auto.
        destruct (Hcfg p Hp) as (x & Hx & Hg). rewrite Hg, <- Hx. apply Hfr, Hnot.
      * rewrite comprehension_frame by exact Hnin. rewrite lookup_empty.
        destruct (s !! k) eqn:Hsk; [| reflexivity].
        exfalso. destruct (proj1 (Hkeys k) (ltac:(eauto))) as [? | ?]; auto.
Qed.

Definition params_bx : list Param := [param_batch (VInt 5); param_x].
Definition sug_bx : dict :=
  <[uuid_key := VStr "n"]> (<["x" := VInt 3]> (<["batch" := VInt (-2)]> ∅)).

Lemma publish_then_reconstruct_witness :
  exists wc, publish_config params_bx (codec_D libm0) sug_bx = Ok wc /\
    suggestion_from_run params_bx (codec_D libm0)
      {| run_id := "r"; run_config := wc ∪ {[ "lr" := VInt 1 ]};
         run_summary := ∅ |} =
    Ok (<[uuid_key := VStr "r"]> sug_bx).
Proof.
  apply publish_then_reconstruct.
  - apply (bool_decide_unpack _). vm_compute. reflexivity.
  - simpl. intros [H | [H | []]]; discriminate.
  - intros k. unfold sug_bx. rewrite !lookup_insert_is_Some, lookup_empty. simpl.
    split.
    + intros [H | [_ [H | [_ [H | [_ [? H']]]]]]]; subst; auto; discriminate.
    + intros [<- | [<- | [<- | []]]].
      * left. reflexivity.
      * right. split; [discriminate |]. right. split; [discriminate |]. left. reflexivity.
      * right. split; [discriminate |]. left. reflexivity.
  - intros p [<- | [<- | []]] H; [| discriminate].
    eexists. split; [reflexivity | lia].
Defined.

(** ** Defaulting, decoding and the codec-free subclass *)

(** X9. In the base class, reconstructing a vector from a ledger record
    never raises: for registry parameters with distinct names, each one
    maps to its value in the record's config, or to its [search_center]
    when the config lacks it, and no other key than these and
    [suggestion_uuid] appears. *)
Theorem plain_reconstruction_defaults (params : list Param) (run : Run) :
  NoDup (map name params) -> ~ In uuid_key (map name params) ->
  exists v, suggestion_from_run params Plain run = Ok v /\
    (forall p, In p params ->
       v !! name p = Some (get (run_config run) (name p) (search_center p))) /\
    (forall k, k <> uuid_key -> ~ In k (map name params) -> v !! k = None).
Proof.
  intros Hnd Hu. unfold uuid_key in *. eexists. split; [reflexivity |]. split.
  - intros p Hp. unfold base_suggestion_from_run.
    rewrite lookup_insert_ne by (intros Heq; apply Hu; rewrite Heq; now apply in_map).
    unfold config_comprehension. rewrite comprehension_lookup by auto. reflexivity.
  - intros k Hk Hnin. unfold base_suggestion_from_run.
    rewrite lookup_insert_ne by auto. unfold config_comprehension.
    rewrite comprehension_frame by exact Hnin. apply lookup_empty.
Qed.

Lemma plain_reconstruction_defaults_witness :
  exists v, suggestion_from_run params_bx Plain run_E = Ok v /\
    v !! "batch" = Some (VInt 5).
Proof.
  destruct (plain_reconstruction_defaults params_bx run_E) as (v & Hv & Hp & _).
  - apply (bool_decide_unpack _). vm_compute. reflexivity.
  - simpl. intros [H | [H | []]]; discriminate.
  - exists v. split; [exact Hv |]. apply (Hp (param_batch (VInt 5))). left. reflexivity.
Defined.

(** X10. Decoding a positive int config value [z < 2 ** 53] of a
    power-of-two parameter gives [floor(log2 z)], or one more where the
    platform's [log2] rounds up to the next integer (on CPython
    [int(math.log2(2**49 - 1))] is 49), and exactly [floor(log2 z)] when
    [z < 1.5 * 2 ** floor(log2 z)] (in particular for a power of two); so a
    value that is not a power of two does not round-trip.  A zero or
    negative value raises [ValueError]. *)
Theorem decode_int_floor (lm : Libm) (z : Z) :
  (0 < z < 2 ^ 53 ->
     exists r, py_int_log2 lm (VInt z) = Ok (VInt r) /\
       (r = Z.log2 z \/ r = Z.log2 z + 1) /\
       (2 * z < 3 * 2 ^ Z.log2 z -> r = Z.log2 z)) /\
  (z <= 0 -> py_int_log2 lm (VInt z) = Err ValueError).
Proof.
  split.
  - intros Hz. cbn [py_int_log2]. unfold int_log2.
    assert (E : (0 <? z) = true) by (apply Z.ltb_lt; lia).
    rewrite E, int_to_double_small by (rewrite Z.abs_eq; lia).
    set (k := Z.log2 z).
    assert (Hk : 0 <= k) by apply Z.log2_nonneg.
    destruct (Z.log2_spec z ltac:(lia)) as [H1 H2]. fold k in H1, H2.
    rewrite <- Z.add_1_r in H2.
    assert (Q1 : (pow2_Q k <= inject_Z z)%Q).
    { unfold pow2_Q. apply Z.leb_le in Hk as Hk'. rewrite Hk'. rewrite <- Zle_Qle. exact H1. }
    assert (Q2 : (inject_Z z < pow2_Q (k + 1))%Q).
    { unfold pow2_Q. assert (Hk' : (0 <=? k + 1) = true) by (apply Z.leb_le; lia).
      rewrite Hk'. rewrite <- Zlt_Qlt. exact H2. }
    destruct (libm_log2_faithful lm (inject_Z z) k Q1 Q2) as [[Hl Hu] Hs].
    destruct (Qlt_le_dec (libm_log2 lm (inject_Z z)) (inject_Z (k + 1))) as [Hlt | Hge].
    + exists k. split; [f_equal; f_equal; apply py_trunc_between; auto |].
      split; [left; reflexivity | intros _; reflexivity].
    + exists (k + 1). split.
      { f_equal; f_equal. apply py_trunc_int. apply Qle_antisym; auto. }
      split; [right; reflexivity |]. intros H3. exfalso.
      assert (Q3 : (2 * inject_Z z < 3 * pow2_Q k)%Q).
      { unfold pow2_Q. apply Z.leb_le in Hk as Hk'. rewrite Hk'.
        unfold Qlt, Qmult. cbn [Qnum Qden inject_Z]. lia. }
      apply (Qlt_not_le _ _ (Hs Q3)). exact Hge.
  - intros Hz. cbn [py_int_log2]. unfold int_log2.
    assert (H : (0 <? z) = false) by (apply Z.ltb_ge; lia). now rewrite H.
Qed.

Lemma decode_int_floor_witness :
  py_int_log2 libm0 (VInt 40) = Ok (VInt 5) /\ py_int_log2 libm0 (VInt 0) = Err ValueError.
Proof.
  split.
  - destruct (proj1 (decode_int_floor libm0 40) ltac:(lia)) as (r & Hr & _ & Hs).
    rewrite Hr, Hs by (vm_compute; reflexivity). reflexivity.
  - apply (proj2 (decode_int_floor libm0 0)). lia.
Defined.

(** X11. A [Pow2WandbCarbs] none of whose registry parameters is a
    power-of-two parameter (in particular one built with
    [pow2_params=None], which becomes the empty set) encodes and decodes
    exactly as the base class. *)
Theorem pow2_without_pow2_params_is_plain (params : list Param) (lm : Libm)
    (ps : list string) :
  (forall p, In p params -> ~ In (name p) ps) ->
  (forall s, transform_suggestion params (Pow2 lm ps) s = transform_suggestion params Plain s) /\
  (forall run, suggestion_from_run params (Pow2 lm ps) run =
               suggestion_from_run params Plain run).
Proof.
  intros Hnone.
  assert (Hmap : forall f s, map_pow2_params (Pow2 lm ps) f params s = Ok s).
  { intros f. induction params as [| p rest IH]; intros s; [reflexivity |].
    cbn [map_pow2_params].
    assert (Hp : is_pow2 (Pow2 lm ps) (name p) = false).
    { cbn [is_pow2]. apply not_true_iff_false. intros H.
      apply existsb_exists in H as (x & Hx & Heq). apply String.eqb_eq in Heq. subst.
      apply (Hnone p (or_introl eq_refl) Hx). }
    rewrite Hp. apply IH. intros q Hq. apply Hnone. right. exact Hq. }
  split; intros; [apply Hmap | apply Hmap].
Qed.

Lemma pow2_without_pow2_params_is_plain_witness :
  suggestion_from_run [param_x] (Pow2 libm0 []) run_A = suggestion_from_run [param_x] Plain run_A.
Proof.
  apply (pow2_without_pow2_params_is_plain [param_x] libm0 []). intros p _ [].
Defined.

(** ** The sweep configuration *)

Lemma sweep_parameters_result (ps : list Param) (acc : gmap string Entry) :
  match sweep_parameters ps acc with
  | Ok m =>
      Forall (fun q => is_Some (space_min (space q)) /\ is_Some (space_max (space q))) ps /\
      (forall k, is_Some (m !! k) <-> is_Some (acc !! k) \/ In k (map name ps))
  | Err e =>
      e = AttributeError /\
      Exists (fun q => space_min (space q) = None \/ space_max (space q) = None) ps
  end.
Proof.
  revert acc. induction ps as [| p ps IH]; intros acc.
  - simpl. split; [constructor |]. intros k. tauto.
  - cbn [sweep_parameters].
    destruct (space_min (space p)) as [mn |] eqn:Hmn; cbn [attr rbind].
    2: { split; [reflexivity |]. left. left. exact Hmn. }
    destruct (space_max (space p)) as [mx |] eqn:Hmx; cbn [attr rbind].
    2: { split; [reflexivity |]. left. right. exact Hmx. }
    specialize (IH (<[name p := {| e_min := mn; e_max := mx;
                                  distribution := wandb_distribution p |}]> acc)).
    destruct (sweep_parameters ps _) as [m | e].
    + destruct IH as [Hall Hkeys]. split.
      * constructor; [rewrite Hmn, Hmx; split; eexists; reflexivity | exact Hall].
      * intros k. rewrite Hkeys, lookup_insert_is_Some'. cbn [map In]. tauto.
    + destruct IH as [He Hex]. split; [exact He |]. right. exact Hex.
Qed.

(** X12. [_wandb_sweep_cfg_from_carbs_params] either builds a Bayesian
    search maximizing [eval_metric] under the given name, whose parameter
    entries are keyed by exactly the registry parameters' names (every one
    of which has a space with [min] and [max]), or raises
    [AttributeError], which happens exactly when some parameter's space
    lacks [min] or [max]. *)
Theorem sweep_cfg_shape (nm : string) (ps : list Param) :
  match wandb_sweep_cfg_from_carbs_params nm ps with
  | Ok cfg =>
      method cfg = "bayes" /\ metric_goal cfg = "maximize" /\
      metric_name cfg = "eval_metric" /\ cfg_name cfg = nm /\
      Forall (fun q => is_Some (space_min (space q)) /\ is_Some (space_max (space q))) ps /\
      (forall k, is_Some (parameters cfg !! k) <-> In k (map name ps))
  | Err e =>
      e = AttributeError /\
      Exists (fun q => space_min (space q) = None \/ space_max (space q) = None) ps
  end.
Proof.
  unfold wandb_sweep_cfg_from_carbs_params.
  pose proof (sweep_parameters_result ps ∅) as H.
  destruct (sweep_parameters ps ∅) as [m | e]; cbn [rbind]; [| exact H].
  destruct H as [Hall Hkeys]. cbn.
  split; [reflexivity |]. split; [reflexivity |]. split; [reflexivity |].
  split; [reflexivity |]. split; [exact Hall |].
  intros k. rewrite Hkeys, lookup_empty. split; [| auto].
  intros [[? Hx] | Hk]; [discriminate | exact Hk].
Qed.

(** ** The older copy *)

Definition legacy_call_ok (c : Call) : bool :=
  match c with Observe _ _ _ _ | SuggestCall => true | _ => false end.

Definition is_suggest_call (c : Call) : bool :=
  match c with SuggestCall => true | _ => false end.

Lemma legacy_process_run_effect (params : list Param) (r : Run) (w w' : World)
    (res : result unit) :
  Legacy.process_run params r w = (w', res) ->
  (res = Err (KeyError state_key) /\ w' = w) \/
  (res = Ok tt /\ exists c, w' = push_call c w /\ legacy_call_ok c = true /\
                            is_suggest_call c = run_in_state "running" r).
Proof.
  unfold Legacy.process_run, run_in_state. unfold_m. unfold getitem.
  destruct (run_summary r !! state_key) as [st |]; intros H.
  - right. destruct (py_eq_str st "running"); inversion H; subst;
      (split; [reflexivity |]); eexists; (split; [reflexivity |]); split; reflexivity.
  - left. inversion H. auto.
Qed.

(** X13. The older copy's reconciliation pass never registers a pending
    suggestion ([remember_suggestion]) and never reseeds: it only appends
    [observe] and [suggest] calls, leaving the worker's summary, config
    and counters alone. When the pass raises nothing it makes exactly one
    call per record, a [suggest()] for each [running] record. *)
Theorem legacy_load_runs_calls (params : list Param) (runs : list Run)
    (w w' : World) (r : result unit) :
  Legacy.load_runs params runs w = (w', r) ->
  exists l, calls w' = calls w ++ l /\ forallb legacy_call_ok l = true /\
    summary w' = summary w /\ config w' = config w /\
    num_observations w' = num_observations w /\ num_failures w' = num_failures w /\
    (r = Ok tt -> length l = length runs /\
       length (List.filter is_suggest_call l) =
       length (List.filter (run_in_state "running") runs)).
Proof.
  revert w. induction runs as [| a runs IH]; intros w H.
  - cbn [Legacy.load_runs] in H. unfold mret in H. inversion H; subst.
    exists []. rewrite app_nil_r. repeat split; reflexivity.
  - cbn [Legacy.load_runs] in H. unfold mbind in H.
    destruct (Legacy.process_run params a w) as [w1 res] eqn:Hp.
    apply legacy_process_run_effect in Hp.
    destruct Hp as [[-> ->] | [-> [c [-> [Hc Hs]]]]].
    + inversion H; subst. exists []. rewrite app_nil_r.
      repeat split; try reflexivity. all: discriminate.
    + destruct (IH _ H) as (l & Hl & Hok & Hsu & Hco & Hno & Hnf & Hlen).
      exists (c :: l). cbn [push_call calls summary config num_observations
                             num_failures] in *.
      rewrite Hl, <- app_assoc. split; [reflexivity |].
      split; [cbn [forallb]; rewrite Hc, Hok; reflexivity |].
      repeat (split; [assumption |]).
      intros Hr. destruct (Hlen Hr) as [H1 H2]. cbn [length List.filter].
      rewrite Hs. split; [lia |]. destruct (run_in_state "running" a); cbn; lia.
Qed.

Definition run_I : Run :=
  {| run_id := "i"; run_config := ∅;
     run_summary := {[ state_key := VStr "initializing" ]} |}.

Lemma legacy_load_runs_calls_witness :
  exists l, calls (fst (Legacy.load_runs [param_x] [run_A; run_I] empty_world)) =
            calls empty_world ++ l /\ length l = 2%nat.
Proof.
  destruct (legacy_load_runs_calls [param_x] [run_A; run_I] empty_world
              (fst (Legacy.load_runs [param_x] [run_A; run_I] empty_world))
              (snd (Legacy.load_runs [param_x] [run_A; run_I] empty_world)))
    as (l & Hl & _ & _ & _ & _ & _ & Hlen).
  - apply surjective_pairing.
  - exists l. split; [exact Hl |]. apply Hlen. vm_compute. reflexivity.
Defined.

(** X14. A record still in state [initializing] (a worker that has not
    finished constructing) is skipped by the current reconciler, but the
    older copy observes it as a finished success, with objective and cost
    0 when its summary has none. *)
Theorem initializing_skipped_vs_legacy_observed (params : list Param) (c : Codec)
    (r : Run) (w : World) :
  run_summary r !! state_key = Some (VStr "initializing") ->
  update_carbs_from_run params c r w = (w, Ok tt) /\
  Legacy.process_run params r w =
    (push_call (Observe (Legacy.suggestion_from_run params r)
                        (get (run_summary r) "carbs.objective" (VInt 0))
                        (get (run_summary r) "carbs.cost" (VInt 0)) false) w, Ok tt).
Proof.
  intros H. unfold update_carbs_from_run, Legacy.process_run. unfold_m.
  unfold getitem. rewrite H. split; reflexivity.
Qed.

Lemma initializing_skipped_vs_legacy_observed_witness :
  update_carbs_from_run [param_x] Plain run_I empty_world = (empty_world, Ok tt) /\
  Legacy.process_run [param_x] run_I empty_world =
    (push_call (Observe (Legacy.suggestion_from_run [param_x] run_I)
                        (VInt 0) (VInt 0) false) empty_world, Ok tt).
Proof.
  apply (initializing_skipped_vs_legacy_observed [param_x] Plain run_I empty_world).
  reflexivity.
Defined.

(** What the callers of the older [suggest()] see when they all share one
    object: each call returns the current contents, which a mutation
    through any reference handed out so far replaces. *)
Fixpoint legacy_shared (cur : dict) (n : nat) (ops : list Op) : list (result dict) :=
  match ops with
  | [] => []
  | CallSuggest :: ops' => Ok cur :: legacy_shared cur (S n) ops'
  | Mutate i d :: ops' =>
      if Nat.ltb i n then legacy_shared d n ops' else legacy_shared cur n ops'
  end.

Lemma legacy_run_ops_inv (ops : list Op) (o : Obj) (cur : dict) :
  heap o !! stored o = Some cur ->
  (forall i l, returned o !! i = Some l -> l = stored o) ->
  Legacy.run_ops o ops = legacy_shared cur (length (returned o)) ops.
Proof.
  revert o cur. induction ops as [| op ops IH]; intros o cur Hh Hr; [reflexivity |].
  destruct op as [| i d].
  - cbn [Legacy.run_ops Legacy.suggest heap legacy_shared]. rewrite Hh. cbn [default].
    f_equal. rewrite (IH _ cur); cbn [heap stored returned].
    + rewrite length_app. cbn [length]. f_equal. lia.
    + exact Hh.
    + intros j l Hj. apply lookup_app_Some in Hj as [Hj | [_ Hj]]; [now apply (Hr j) |].
      apply list_lookup_singleton_Some in Hj. symmetry. apply Hj.
  - cbn [Legacy.run_ops legacy_shared].
    destruct (returned o !! i) as [l |] eqn:Hi.
    + assert (Hlt : (i <? length (returned o))%nat = true)
        by (apply Nat.ltb_lt; eapply lookup_lt_Some; exact Hi).
      rewrite Hlt. rewrite (Hr i l Hi), (IH _ d); [reflexivity | | exact Hr].
      apply lookup_insert_eq.
    + assert (Hge : (i <? length (returned o))%nat = false)
        by (apply Nat.ltb_ge; apply lookup_ge_None; exact Hi).
      rewrite Hge. apply IH; assumption.
Qed.

(** X15. The older copy's [suggest()] returns the stored suggestion
    itself: every caller holds the same object, so after a caller mutates
    the dict it received, every later [suggest()] returns the mutated
    contents (contrast with the copies of the current class). *)
Theorem legacy_suggest_shared (s0 : dict) (ops : list Op) :
  Legacy.run_ops (after_init s0) ops = legacy_shared s0 0 ops.
Proof.
  apply (legacy_run_ops_inv ops (after_init s0) s0).
  - apply lookup_singleton_eq.
  - intros i l H. cbn in H. discriminate.
Qed.

(** ** The decoder's and the encoder's errors *)

Lemma py_int_log2_errors (lm : Libm) (v : Value) (e : Exc) :
  py_int_log2 lm v = Err e -> e = ValueError \/ e = TypeError.
Proof.
  assert (Hi : forall z, int_log2 lm z = Err e -> e = ValueError).
  { intros z. unfold int_log2. destruct (0 <? z); [| congruence].
    destruct (int_to_double z); [discriminate |]. destruct (long_frexp z); discriminate. }
  destruct v as [| b | z | q | s]; cbn [py_int_log2]; intros H.
  - right. congruence.
  - left. exact (Hi _ H).
  - left. exact (Hi _ H).
  - destruct (0 <? Qnum q); [discriminate | left; congruence].
  - right. congruence.
Qed.

Lemma comprehension_is_Some (ps : list Param) (cfg acc : dict) (k : string) :
  In k (map name ps) \/ is_Some (acc !! k) ->
  is_Some (foldl (fun acc p => <[name p := get cfg (name p) (search_center p)]> acc)
             acc ps !! k).
Proof.
  revert acc. induction ps as [| q ps IH]; intros acc H.
  - destruct H as [[] | H]; exact H.
  - cbn [foldl]. apply IH. cbn [map In] in H.
    destruct H as [[Hq | Hk] | Ha]; [right | left; exact Hk | right].
    + apply lookup_insert_is_Some'. left. exact Hq.
    + apply lookup_insert_is_Some'. right. exact Ha.
Qed.

Lemma map_pow2_decode_errors (c : Codec) (lm : Libm) (ps : list Param) (s : dict) (e : Exc) :
  (forall p, In p ps -> is_Some (s !! name p)) ->
  map_pow2_params c (py_int_log2 lm) ps s = Err e -> e = ValueError \/ e = TypeError.
Proof.
  revert s. induction ps as [| p ps IH]; intros s Hs H; [discriminate |].
  cbn [map_pow2_params] in H. destruct (is_pow2 c (name p)).
  - unfold getitem in H. destruct (Hs p (or_introl eq_refl)) as [v Hv].
    rewrite Hv in H. cbn [rbind] in H.
    destruct (py_int_log2 lm v) as [v' | e'] eqn:Hd; cbn [rbind] in H.
    + apply (IH _ ltac:(intros q Hq; apply lookup_insert_is_Some'; right;
                        apply Hs; right; exact Hq) H).
    + inversion H; subst. exact (py_int_log2_errors lm v e Hd).
  - apply (IH s ltac:(intros q Hq; apply Hs; right; exact Hq) H).
Qed.

(** X16. Reconstructing a suggestion from a ledger record never raises
    [KeyError]: a parameter the record's config lacks takes its
    [search_center], so the decoder finds every parameter; the only errors
    are [math.log2]'s [ValueError] on a non-positive value and
    [TypeError] on a non-number. *)
Theorem decode_never_key_error (params : list Param) (c : Codec) (run : Run) (e : Exc) :
  suggestion_from_run params c run = Err e -> e = ValueError \/ e = TypeError.
Proof.
  rewrite suggestion_from_run_as_map. apply map_pow2_decode_errors.
  intros p Hp. unfold base_suggestion_from_run. apply lookup_insert_is_Some'. right.
  unfold config_comprehension. apply comprehension_is_Some. left. now apply in_map.
Qed.

Lemma decode_never_key_error_witness :
  suggestion_from_run [param_batch (VInt 0)] (Pow2 libm0 ["batch"]) run_E = Err ValueError /\
  (ValueError = ValueError \/ ValueError = TypeError).
Proof.
  split; [vm_compute; reflexivity |].
  apply (decode_never_key_error [param_batch (VInt 0)] (Pow2 libm0 ["batch"]) run_E).
  vm_compute. reflexivity.
Defined.

Lemma py_pow2_errors (lm : Libm) (v : Value) (e : Exc) :
  py_pow2 lm v = Err e -> e = TypeError \/ e = OverflowError.
Proof.
  assert (Hf : forall y, float_pow2 lm y = Err e -> e = OverflowError)
    by (intros y; unfold float_pow2; destruct (libm_pow2 lm y); congruence).
  destruct v as [| b | z | q | s]; cbn [py_pow2]; intros H.
  - left. congruence.
  - discriminate.
  - destruct (0 <=? z); [discriminate |]. right.
    unfold int_to_double in H. destruct (2 ^ 1024 <=? round_int53 (Z.abs z)).
    + cbn [rbind] in H. congruence.
    + exact (Hf _ H).
  - right. exact (Hf _ H).
  - left. congruence.
Qed.

(** X17. Encoding a suggestion for display raises [KeyError] only for a
    power-of-two parameter the suggestion lacks; its other errors are
    [TypeError] (a non-number) and [OverflowError] ([2 ** x] beyond the
    doubles: a float [x >= 1024], or a negative int too large to convert
    to a float). *)
Theorem transform_errors (params : list Param) (c : Codec) (s : dict) (e : Exc) :
  transform_suggestion params c s = Err e ->
  (exists p, In p params /\ is_pow2 c (name p) = true /\
             e = KeyError (name p) /\ s !! name p = None) \/
  e = TypeError \/ e = OverflowError.
Proof.
  rewrite transform_as_map. revert s. induction params as [| p ps IH]; intros s H;
    [discriminate |].
  cbn [map_pow2_params] in H. destruct (is_pow2 c (name p)) eqn:Hp.
  - unfold getitem in H. destruct (s !! name p) as [v |] eqn:Hv; cbn [rbind] in H.
    + destruct (py_pow2 (codec_libm c) v) as [v' | e'] eqn:Hd; cbn [rbind] in H.
      * destruct (IH _ H) as [(q & Hq & Hq2 & He & Hn) | Hr]; [left | right; exact Hr].
        apply lookup_insert_None in Hn as [Hn _].
        exists q. split; [right; exact Hq |]. auto.
      * inversion H; subst. right. exact (py_pow2_errors _ v e Hd).
    + inversion H; subst. left. exists p. split; [left; reflexivity |]. auto.
  - destruct (IH s H) as [(q & Hq & Hq2 & He & Hn) | Hr]; [left | right; exact Hr].
    exists q. split; [right; exact Hq |]. auto.
Qed.

Lemma transform_errors_witness :
  transform_suggestion [param_x] (Pow2 libm0 ["x"]) ∅ = Err (KeyError "x") /\
  ((exists p, In p [param_x] /\ is_pow2 (Pow2 libm0 ["x"]) (name p) = true /\
              KeyError "x" = KeyError (name p) /\ (∅ : dict) !! name p = None) \/
   KeyError "x" = TypeError \/ KeyError "x" = OverflowError).
Proof.
  split; [vm_compute; reflexivity |].
  apply (transform_errors [param_x] (Pow2 libm0 ["x"]) ∅). vm_compute. reflexivity.
Defined.
